(** * Hypernum: the dimensional operations layer

    A shallow embedding of [src/operations/dimensional.ts],
    [src/utils/dimensionUtils.ts] and of the arithmetic stand-ins of the
    investment simulator example, together with the properties the
    specification states about them.  The parts of the library that these
    sources call but that are not among them ([power.power], the
    Normalizer and [divide] of the arithmetic kernel) are modelled from the
    specification and marked as such.

    Conventions of the embedding:
    - a JavaScript [bigint] is a [Z]; bigint division [/] truncates toward
      zero and is [Z.quot];
    - a thrown exception is the [Throws] outcome of a computation, tagged
      with the class of the thrown error (the message text is not kept);
    - the numeric inputs ([NumericInput]) of the dimensional layer are
      taken in their [bigint] variant, for which [toBigInt] is the identity
      and [typeof input === 'string'] is false;
    - a JavaScript [number] that only ever holds sums, products and
      quotients of short decimal literals and integers (the activations of
      the dimension profiles) is an exact rational [Q]; the rounding of
      binary floating point is not modelled, and no comparison of the
      modelled code sits close enough to its threshold to depend on it. *)

From Stdlib Require Import ZArith QArith Qminmax Lia List Bool String DecimalString.
From stdpp Require Import base option list gmap.

Local Open Scope Z_scope.

(** ** Outcomes of a call *)

(** The error classes of the library, and the native [RangeError] that the
    JavaScript runtime raises on a bigint division by zero. *)
Inductive ErrorKind : Type :=
  | ValidationError
  | OverflowError
  | ComputationLimitError
  | RangeError.

Inductive Outcome (A : Type) : Type :=
  | Returns (a : A)
  | Throws (e : ErrorKind).

Arguments Returns {A} a.
Arguments Throws {A} e.

(** ** Counted loops *)

(** [for_range steps i body s] runs [body i], [body (i+1)], ... for [steps]
    consecutive values of the counter. *)
Fixpoint for_range {S : Type} (steps : nat) (i : Z) (body : Z -> S -> S) (s : S) : S :=
  match steps with
  | O => s
  | Datatypes.S m => for_range m (i + 1) body (body i s)
  end.

(** [for (let i = lo; i < hi; i++) body]: no iteration when [hi <= lo]. *)
Definition for_lt {S : Type} (lo hi : Z) (body : Z -> S -> S) (s : S) : S :=
  for_range (Z.to_nat (hi - lo)) lo body s.

(** [for (let i = lo; i <= hi; i++) body]. *)
Definition for_le {S : Type} (lo hi : Z) (body : Z -> S -> S) (s : S) : S :=
  for_lt lo (hi + 1) body s.

(** ** Binomial coefficients *)

Module Binomial.

(** The mathematical binomial coefficient, by Pascal's rule. *)
Fixpoint choose (n k : nat) : Z :=
  match n, k with
  | _, O => 1
  | O, Datatypes.S _ => 0
  | Datatypes.S n', Datatypes.S k' => choose n' k' + choose n' k
  end.

Fixpoint fact (n : nat) : Z :=
  match n with
  | O => 1
  | Datatypes.S m => Z.of_nat n * fact m
  end.

(** The body of the loop of [computeIterativeBinomial]:
    [result = result * (n - i + 1n) / i]. *)
Definition iterative_step (n i result : Z) : Z :=
  (result * (n - i + 1)) ÷ i.

(** The accumulator of [computeIterativeBinomial] after [j] iterations. *)
Definition iterative_acc (n : Z) (j : nat) : Z :=
  for_range j 1 (iterative_step n) 1.

(** [computeIterativeBinomial(n, k)] *)
Definition computeIterativeBinomial (n k : Z) : Z :=
  if k >? n then 0
  else if (k =? 0) || (k =? n) then 1
  else
    let k := if k >? n - k then n - k else k in
    for_le 1 k (iterative_step n) 1.

(** The body of the loop of [computeStagedBinomial], on the pair
    [(result, currentN)]:
    [result = result * currentN / (i + 1n); currentN--]. *)
Definition staged_step (i : Z) (st : Z * Z) : Z * Z :=
  let '(result, currentN) := st in
  ((result * currentN) ÷ (i + 1), currentN - 1).

(** [computeStagedBinomial(n, k, config)]; the function never reads its
    [config] argument, which is kept as a parameter of any type. *)
Definition computeStagedBinomial {Config : Type} (n k : Z) (config : Config) : Z :=
  let actualK := if k >? n - k then n - k else k in
  fst (for_lt 0 actualK staged_step (1, n)).

End Binomial.

(** ** Decimal rendering of a bigint *)

Module Digits.

(** Number of decimal digits of a non-negative integer: one digit, plus one
    for every division by ten that the value survives.  [fuel] bounds the
    number of divisions. *)
Fixpoint digits_aux (fuel : nat) (z : Z) : Z :=
  match fuel with
  | O => 1
  | Datatypes.S f => if z <? 10 then 1 else 1 + digits_aux f (z ÷ 10)
  end.

(** Number of decimal digits of the magnitude of [z] (the sign is not
    counted; zero has one digit).  A value of binary length [b] has at most
    [b] decimal digits, which bounds the divisions. *)
Definition decimal_digits (z : Z) : Z :=
  digits_aux (Z.to_nat (Z.log2 (Z.abs z))) (Z.abs z).

(** [z.toString().length] for a bigint [z]: its decimal digits, preceded by
    a minus sign when [z] is negative. *)
Definition toString_length (z : Z) : Z :=
  (if z <? 0 then 1 else 0) + decimal_digits z.

(** [z.toString()] and the template rendering of a bigint, through the
    decimal printer of the standard library. *)
Definition toString (z : Z) : string :=
  NilZero.string_of_int (Z.to_int z).

End Digits.

(** ** Configuration and strategy selection ([dimensional.ts]) *)

(** The fields of [HypernumConfig] that the dimensional layer reads through
    [config as any]; an absent field is [None].  [checkOverflow] is only
    passed on to [power.power]. *)
Record HypernumConfig : Type := {
  precision : option Z;
  checkOverflow : bool;
  maxSteps : option Z;
  debug : bool
}.

Inductive StrategyDimension : Type :=
  | GROWTH_RISK
  | PRECISION_TENSION
  | RECURSION_DEPTH
  | HEURISTIC_FIT
  | MEMORY_PRESSURE
  | USER_INTENT.

Definition dimension_eqb (a b : StrategyDimension) : bool :=
  match a, b with
  | GROWTH_RISK, GROWTH_RISK
  | PRECISION_TENSION, PRECISION_TENSION
  | RECURSION_DEPTH, RECURSION_DEPTH
  | HEURISTIC_FIT, HEURISTIC_FIT
  | MEMORY_PRESSURE, MEMORY_PRESSURE
  | USER_INTENT, USER_INTENT => true
  | _, _ => false
  end.

(** [dims.includes(d)] *)
Definition includes (dims : list StrategyDimension) (d : StrategyDimension) : bool :=
  existsb (dimension_eqb d) dims.

Record DimensionProfile : Type := {
  dimension : StrategyDimension;
  activation : Q;
  threshold : Q;
  evidence : list string
}.

Inductive Primary : Type := exact | heuristic | staged | memory_safe.

Inductive Complexity : Type := low | medium | high | extreme.

Record StrategyProfile : Type := {
  primary : Primary;
  fallbacks : list Primary;
  expectedPrecision : Q;
  estimatedComplexity : Complexity;
  reasoning : string
}.

Module Strategy.

(** [value < 0n ? -value : value] *)
Definition magnitude (value : Z) : Z :=
  if value <? 0 then - value else value.

(** [isPromotableScalar(input)] on a bigint input. *)
Definition isPromotableScalar (input : Z) : bool :=
  let magnitude := magnitude input in
  (magnitude >? 1000) || (Digits.toString_length magnitude >? 10).

(** [promoteToDimension(input)] on a bigint input; [None] is [null]. *)
Definition promoteToDimension (input : Z) : option DimensionProfile :=
  if negb (isPromotableScalar input) then None
  else
    let magnitude := magnitude input in
    let large := magnitude >? 1000 in
    let huge := Digits.toString_length magnitude >? 50 in
    let activation :=
      (0 + (if large then 3 # 10 else 0) + (if huge then 4 # 10 else 0))%Q in
    let evidence :=
      (if large then [("Large magnitude: " ++ Digits.toString magnitude)%string] else [])
      ++ (if huge
          then [("Extremely large number: "
                 ++ Digits.toString (Digits.toString_length magnitude)
                 ++ " digits")%string]
          else []) in
    Some {| dimension := GROWTH_RISK;
            activation := Qmin activation 1;
            threshold := 5 # 10;
            evidence := evidence |}.

(** [profile.activation >= profile.threshold] *)
Definition is_active (p : DimensionProfile) : bool :=
  Qle_bool (threshold p) (activation p).

(** The truthiness test [x && x > bound] of an optional integer field. *)
Definition field_above (x : option Z) (bound : Z) : option Z :=
  match x with
  | Some v => if negb (v =? 0) && (v >? bound) then Some v else None
  | None => None
  end.

(** [detectDimensions(inputs, config, context)]; [context] is not read. *)
Definition detectDimensions (inputs : list Z) (config : HypernumConfig)
  : list DimensionProfile :=
  let promoted :=
    flat_map (fun input =>
      match promoteToDimension input with
      | Some profile => if is_active profile then [profile] else []
      | None => []
      end) inputs in
  let tension :=
    match field_above (precision config) 10 with
    | Some p =>
        [{| dimension := PRECISION_TENSION;
            activation := Qmin (inject_Z p / 50) 1;
            threshold := 3 # 10;
            evidence := [("High precision required: " ++ Digits.toString p)%string] |}]
    | None => []
    end in
  let depth :=
    match field_above (maxSteps config) 500 with
    | Some m =>
        [{| dimension := RECURSION_DEPTH;
            activation := Qmin (inject_Z m / 2000) 1;
            threshold := 4 # 10;
            evidence := [("High step limit: " ++ Digits.toString m)%string] |}]
    | None => []
    end in
  let intent :=
    if debug config
    then [{| dimension := USER_INTENT;
             activation := 1;
             threshold := 5 # 10;
             evidence := ["Debug mode indicates development/testing context"%string] |}]
    else [] in
  promoted ++ tension ++ depth ++ intent.

(** [resolveStrategy(inputs, config, context)] *)
Definition resolveStrategy (inputs : list Z) (config : HypernumConfig)
  : StrategyProfile :=
  let profiles := detectDimensions inputs config in
  let activeDimensions := map dimension (List.filter is_active profiles) in
  if includes activeDimensions GROWTH_RISK then
    if includes activeDimensions HEURISTIC_FIT then
      {| primary := heuristic;
         fallbacks := [staged; exact];
         expectedPrecision := 95 # 100;
         estimatedComplexity := medium;
         reasoning := "Growth risk detected, heuristics acceptable"%string |}
    else
      {| primary := staged;
         fallbacks := [memory_safe; heuristic];
         expectedPrecision := 99 # 100;
         estimatedComplexity := high;
         reasoning := "Growth risk requires careful staged computation"%string |}
  else if includes activeDimensions PRECISION_TENSION then
    {| primary := exact;
       fallbacks := [staged];
       expectedPrecision := 1;
       estimatedComplexity := high;
       reasoning := "High precision required, no approximations"%string |}
  else if includes activeDimensions RECURSION_DEPTH then
    {| primary := memory_safe;
       fallbacks := [heuristic; staged];
       expectedPrecision := 98 # 100;
       estimatedComplexity := medium;
       reasoning := "Recursion depth limits require iterative approach"%string |}
  else
    {| primary := exact;
       fallbacks := [staged];
       expectedPrecision := 1;
       estimatedComplexity := low;
       reasoning := "No special dimensions detected, using exact computation"%string |}.

End Strategy.

(** ** Power computations ([dimensional.ts]) *)

Definition Outcome_map {A B : Type} (f : A -> B) (o : Outcome A) : Outcome B :=
  match o with
  | Returns a => Returns (f a)
  | Throws e => Throws e
  end.

(** [computeSmartPower] returns [bigint | number]: either an exact bigint,
    or the floating-point estimate
    [Math.log(Number(base)) * Number(exponent)], kept symbolically. *)
Inductive SmartValue : Type :=
  | BigIntValue (z : Z)
  | LogEstimate (base exponent : Z).

Module SmartPower.

(** The [while (remaining > 0n)] loop of [computeIterativePower].  Each
    iteration consumes one unit of [fuel]; [None] means that the fuel ran
    out before the loop ended.  [currentBase] is never reassigned. *)
Fixpoint iterative_loop (fuel : nat) (currentBase chunkSize result remaining : Z)
  : option (Outcome Z) :=
  if remaining >? 0 then
    match fuel with
    | O => None
    | Datatypes.S fuel' =>
        let chunk := if remaining >? chunkSize then chunkSize else remaining in
        let chunkResult := for_lt 0 chunk (fun _ acc => acc * currentBase) 1 in
        let result := result * chunkResult in
        let remaining := remaining - chunk in
        if Digits.toString_length result >? 1000
        then Some (Throws ValidationError)
        else iterative_loop fuel' currentBase chunkSize result remaining
    end
  else Some (Returns result).

(** [computeIterativePower(base, exponent, chunkSize)] *)
Definition computeIterativePower (fuel : nat) (base exponent chunkSize : Z)
  : option (Outcome Z) :=
  if exponent =? 0 then Some (Returns 1)
  else if exponent =? 1 then Some (Returns base)
  else iterative_loop fuel base chunkSize 1 exponent.

Section WithPower.

(** [power.power] of [operations/power.ts], which the dimensional layer
    calls but which is not among the sources: a parameter here. *)
Variable power_power : Z -> Z -> HypernumConfig -> Outcome Z.

(** [basicConfig.maxSteps || 1000] *)
Definition staged_maxSteps (config : HypernumConfig) : Z :=
  match maxSteps config with
  | Some m => if m =? 0 then 1000 else m
  | None => 1000
  end.

(** [computeStagedPower(base, exponent, config)] *)
Definition computeStagedPower (base exponent : Z) (config : HypernumConfig)
  : Outcome Z :=
  let maxSteps' := staged_maxSteps config in
  if exponent >? maxSteps' then Throws ValidationError
  else
    power_power base exponent
      {| precision := precision config;
         checkOverflow := checkOverflow config;
         maxSteps := Some maxSteps';
         debug := debug config |}.

(** [computeSmartPower(base, exponent, config, context)].  The chunked loop
    of the memory-safe branch runs with chunks of 1000 and needs at most
    [exponent] iterations, which is the fuel it is given. *)
Definition computeSmartPower (base exponent : Z) (config : HypernumConfig)
  : option (Outcome SmartValue) :=
  let bigBase := base in
  let bigExponent := exponent in
  let strategy := Strategy.resolveStrategy [base; exponent] config in
  if (bigBase >? 10) && (bigExponent >? 100) then
    match primary strategy with
    | heuristic => Some (Returns (LogEstimate bigBase bigExponent))
    | _ => Some (Throws ValidationError)
    end
  else
    match primary strategy with
    | staged =>
        Some (Outcome_map BigIntValue (computeStagedPower bigBase bigExponent config))
    | memory_safe =>
        option_map (Outcome_map BigIntValue)
          (computeIterativePower (Z.to_nat bigExponent) bigBase bigExponent 1000)
    | _ =>
        Some (Outcome_map BigIntValue (power_power base exponent config))
    end.

End WithPower.

End SmartPower.

(** ** The underlying power operation *)

Module Power.

(** Binary length of the magnitude of a bigint. *)
Definition bit_length (z : Z) : Z :=
  if z =? 0 then 0 else Z.log2 (Z.abs z) + 1.

(** Modelled from the spec: the Overflow Guard of [utils/validation.ts],
    which is not among the sources.  With overflow checking on, a value
    whose binary length exceeds [maxBits] fails with an OverflowError; with
    overflow checking off every check is skipped. *)
Definition overflow_guard (check : bool) (maxBits : Z) (v : Z) : Outcome Z :=
  if check && (bit_length v >? maxBits) then Throws OverflowError else Returns v.

(** Modelled from the spec: the square-and-multiply loop of [power.power],
    over the binary digits of a positive exponent, least significant first;
    the guard is consulted before each squaring is used and on each
    product. *)
Fixpoint power_loop (guard : Z -> Outcome Z) (result base : Z) (e : positive)
  : Outcome Z :=
  match e with
  | xH => guard (result * base)
  | xO e' =>
      match guard (base * base) with
      | Returns sq => power_loop guard result sq e'
      | Throws err => Throws err
      end
  | xI e' =>
      match guard (result * base) with
      | Returns r =>
          match guard (base * base) with
          | Returns sq => power_loop guard r sq e'
          | Throws err => Throws err
          end
      | Throws err => Throws err
      end
  end.

(** Modelled from the spec: [power.power] of [operations/power.ts], which is
    not among the sources.  Binary exponentiation; a negative exponent fails
    with a ValidationError; [maxBits] is the bound of the Overflow Guard. *)
Definition power (maxBits : Z) (base exponent : Z) (config : HypernumConfig)
  : Outcome Z :=
  match exponent with
  | Zneg _ => Throws ValidationError
  | Z0 => Returns 1
  | Zpos e => power_loop (overflow_guard (checkOverflow config) maxBits) 1 base e
  end.

End Power.

(** ** Conflict resolution ([dimensionUtils.ts]) *)

Module Conflicts.

(** The object store: a [DimensionProfile] object lives at a location, and
    an array of profiles is a list of locations.  Two arrays that hold the
    same location share the object. *)
Abbreviation heap := (gmap nat DimensionProfile).

#[export] Instance DimensionProfile_inhabited : Inhabited DimensionProfile :=
  populate {| dimension := GROWTH_RISK; activation := 0; threshold := 0;
              evidence := [] |}.

(** [profiles.map(p => p.dimension)] *)
Definition dimensions (h : heap) (profiles : list nat) : list StrategyDimension :=
  map (fun l => dimension (h !!! l)) profiles.

(** [checkDimensionConflicts(profiles)] *)
Definition checkDimensionConflicts (h : heap) (profiles : list nat) : list string :=
  let activeDimensions := dimensions h profiles in
  (if includes activeDimensions PRECISION_TENSION
      && includes activeDimensions HEURISTIC_FIT
   then ["Precision requirements conflict with heuristic approximations"%string]
   else [])
  ++
  (if includes activeDimensions GROWTH_RISK
      && includes activeDimensions RECURSION_DEPTH
   then ["Growth risk combined with recursion depth may cause overflow"%string]
   else []).

Fixpoint findIndex_from (i : nat) (d : StrategyDimension)
  (dims : list StrategyDimension) : option nat :=
  match dims with
  | [] => None
  | d' :: rest => if dimension_eqb d' d then Some i else findIndex_from (Datatypes.S i) d rest
  end.

(** [profiles.findIndex(p => p.dimension === d)]; [None] is [-1]. *)
Definition findIndex (h : heap) (profiles : list nat) (d : StrategyDimension)
  : option nat :=
  findIndex_from 0 d (dimensions h profiles).

(** The assignment [o.activation = f(o.activation)] on an object. *)
Definition update_activation (f : Q -> Q) (p : DimensionProfile) : DimensionProfile :=
  {| dimension := dimension p;
     activation := f (activation p);
     threshold := threshold p;
     evidence := evidence p |}.

(** [array[i].activation = f(array[i].activation)]: the object that the
    array slot refers to is updated in the store. *)
Definition assign_activation (f : Q -> Q) (array : list nat) (i : nat) (h : heap)
  : heap :=
  match array !! i with
  | Some l => alter (update_activation f) l h
  | None => h
  end.

Record Resolution : Type := {
  resolution : string;
  adjustedProfiles : list nat
}.

(** [resolveDimensionConflicts(profiles)]: returns the store after the call
    and the returned object.  [[...profiles]] is a new array that holds the
    same object references as [profiles]. *)
Definition resolveDimensionConflicts (h : heap) (profiles : list nat)
  : heap * Resolution :=
  let conflicts := checkDimensionConflicts h profiles in
  if (length conflicts =? 0)%nat then
    (h, {| resolution := "No conflicts detected"; adjustedProfiles := profiles |})
  else
    let adjustedProfiles := profiles in
    let resolution := "Conflicts resolved by: "%string in
    let precisionIndex := findIndex h adjustedProfiles PRECISION_TENSION in
    let heuristicIndex := findIndex h adjustedProfiles HEURISTIC_FIT in
    let '(h, resolution) :=
      match precisionIndex, heuristicIndex with
      | Some _, Some heuristicIndex =>
          (assign_activation (fun a => a * (5 # 10))%Q adjustedProfiles heuristicIndex h,
           (resolution ++ "reducing heuristic priority for precision; ")%string)
      | _, _ => (h, resolution)
      end in
    let memoryIndex := findIndex h adjustedProfiles MEMORY_PRESSURE in
    let recursionIndex := findIndex h adjustedProfiles RECURSION_DEPTH in
    let '(h, resolution) :=
      match memoryIndex, recursionIndex with
      | Some memoryIndex, Some _ =>
          (assign_activation (fun a => Qmin (a * (12 # 10)) 1)%Q adjustedProfiles memoryIndex h,
           (resolution ++ "prioritizing memory safety over recursion optimization")%string)
      | _, _ => (h, resolution)
      end in
    (h, {| resolution := resolution; adjustedProfiles := adjustedProfiles |}).

End Conflicts.

(** ** The [divide] stand-ins of the investment simulator example *)

Module Simulator.

(** The bigint division [a / b] of the runtime: a zero divisor raises the
    native RangeError, otherwise the quotient is truncated toward zero. *)
Definition bigint_div (a b : Z) : Outcome Z :=
  if b =? 0 then Throws RangeError else Returns (a ÷ b).

(** [MockHypernum.divide(a, b)]: [(BigInt(a) * 1000n) / BigInt(b)] *)
Definition MockHypernum_divide (a b : Z) : Outcome Z :=
  bigint_div (a * 1000) b.

(** The [divide] of [fallbackToBasicMode]: [BigInt(a) / BigInt(b)] *)
Definition fallback_divide (a b : Z) : Outcome Z :=
  bigint_div a b.

End Simulator.

(** ** Smart binomial ([dimensional.ts]) *)

(** [computeSmartBinomial] returns [bigint | number]: an exact bigint, one
    of the numbers [0] and [1] that [estimateBinomialViaStirling] returns
    on its edge cases, or the floating-point value of Stirling's formula,
    kept symbolically. *)
Inductive BinomialValue : Type :=
  | ExactBinomial (z : Z)
  | NumberBinomial (z : Z)
  | StirlingEstimate (n k : Z).

Module SmartBinomial.

(** [estimateBinomialViaStirling(n, k)] *)
Definition estimateBinomialViaStirling (n k : Z) : BinomialValue :=
  if k >? n then NumberBinomial 0
  else if (k =? 0) || (k =? n) then NumberBinomial 1
  else StirlingEstimate n k.

Section WithBinomial.

(** [binomial(n, k, { checkOverflow })] of [operations/factorial.ts], which
    is not among the sources: a parameter here. *)
Variable binomial : Z -> Z -> bool -> Outcome Z.

(** [computeSmartBinomial(n, k, config, context)]; the debug log line is
    not kept. *)
Definition computeSmartBinomial (n k : Z) (config : HypernumConfig)
  : Outcome BinomialValue :=
  let bigN := n in
  let bigK := k in
  let strategy := Strategy.resolveStrategy [n; k] config in
  match primary strategy with
  | heuristic => Returns (estimateBinomialViaStirling bigN bigK)
  | staged => Returns (ExactBinomial (Binomial.computeStagedBinomial bigN bigK config))
  | memory_safe => Returns (ExactBinomial (Binomial.computeIterativeBinomial bigN bigK))
  | exact => Outcome_map ExactBinomial (binomial n k false)
  end.

End WithBinomial.

End SmartBinomial.

(** ** The strategy as a decision table *)

Module StrategyTable.

(** An input of at least 51 decimal digits. *)
Definition huge_input (x : Z) : bool := 10 ^ 50 <=? Z.abs x.

(** An optional configuration field that is present and at least [bound]. *)
Definition field_at_least (x : option Z) (bound : Z) : bool :=
  match x with
  | Some v => bound <=? v
  | None => false
  end.

(** The strategy that [resolveStrategy] arrives at, read as a table over
    the inputs and the configuration. *)
Definition decision_table (inputs : list Z) (config : HypernumConfig) : Primary :=
  if existsb huge_input inputs then staged
  else if field_at_least (precision config) 15 then exact
  else if field_at_least (maxSteps config) 800 then memory_safe
  else exact.

End StrategyTable.

(** ** The operation context ([dimensional.ts]) *)

Module Context.

(** [operationCount] is a JavaScript number that only counts up by one: an
    integer here. *)
Record Metadata : Type := {
  operationCount : Z;
  maxValueSeen : Z;
  avgComputationTime : Q
}.

Record DGTContext : Type := {
  activeDimensions : list StrategyDimension;
  profiles : list (StrategyDimension * DimensionProfile);
  config : HypernumConfig;
  inputHistory : list Z;
  metadata : Metadata
}.

(** [createDGTContext(config)] *)
Definition createDGTContext (config : HypernumConfig) : DGTContext :=
  {| activeDimensions := [];
     profiles := [];
     config := config;
     inputHistory := [];
     metadata := {| operationCount := 0; maxValueSeen := 0;
                    avgComputationTime := 0 |} |}.

(** The reducer of [updateDGTContext]:
    [absValue > max ? absValue : max]. *)
Definition max_step (max input : Z) : Z :=
  let value := input in
  let absValue := if value <? 0 then - value else value in
  if absValue >? max then absValue else max.

(** [updateDGTContext(context, inputs, result, executionTime)]: the context
    object after the call.  [result] is not read. *)
Definition updateDGTContext {R : Type} (context : DGTContext) (inputs : list Z)
  (result : R) (executionTime : Q) : DGTContext :=
  let inputHistory' := inputHistory context ++ inputs in
  let operationCount' := operationCount (metadata context) + 1 in
  let avgComputationTime' :=
    ((avgComputationTime (metadata context) + executionTime) / 2)%Q in
  let maxInput := fold_left max_step inputs 0 in
  let maxValueSeen' :=
    if maxInput >? maxValueSeen (metadata context) then maxInput
    else maxValueSeen (metadata context) in
  {| activeDimensions := activeDimensions context;
     profiles := profiles context;
     config := config context;
     inputHistory := inputHistory';
     metadata := {| operationCount := operationCount';
                    maxValueSeen := maxValueSeen';
                    avgComputationTime := avgComputationTime' |} |}.

(** A sequence of calls of [updateDGTContext] on a fresh context; each call
    is given by its inputs and its execution time. *)
Definition run_updates (config : HypernumConfig) (calls : list (list Z * Q))
  : DGTContext :=
  fold_left (fun context call => updateDGTContext context (fst call) tt (snd call))
    calls (createDGTContext config).

End Context.

(** ** Selecting profiles ([dimensionUtils.ts]) *)

Module Selection.

Import Conflicts.

(** [filterByActivation(profiles, minActivation)]: a new array with the
    objects of [profiles] whose activation is at least [minActivation]. *)
Definition filterByActivation (h : gmap nat DimensionProfile) (profiles : list nat)
  (minActivation : Q) : list nat :=
  List.filter (fun l => Qle_bool minActivation (activation (h !!! l))) profiles.

(** The default value of [minActivation]. *)
Definition default_minActivation : Q := 5 # 10.

(** [current.activation > dominant.activation ? current : dominant] *)
Definition dominant_step (h : gmap nat DimensionProfile) (dominant current : nat) : nat :=
  if negb (Qle_bool (activation (h !!! current)) (activation (h !!! dominant)))
  then current else dominant.

(** [getDominantDimension(profiles)]: [None] is [null]; [reduce] without an
    initial value starts from the first element. *)
Definition getDominantDimension (h : gmap nat DimensionProfile) (profiles : list nat)
  : option nat :=
  match profiles with
  | [] => None
  | first :: rest => Some (fold_left (dominant_step h) rest first)
  end.

End Selection.

(** ** The arithmetic stand-ins of the investment simulator example *)

Module SimulatorArithmetic.

(** [MockHypernum.add], [subtract] and [multiply], which are also the
    operations of [fallbackToBasicMode]. *)
Definition add (a b : Z) : Z := a + b.
Definition subtract (a b : Z) : Z := a - b.
Definition multiply (a b : Z) : Z := a * b.

End SimulatorArithmetic.

(** ** The arithmetic kernel *)

Module Arithmetic.

(** Modelled from the spec: a native number of the host, which is a finite
    value, not-a-number, or infinite.  [utils/validation.ts], which declares
    the inputs and the Normalizer, is not among the sources. *)
Inductive NativeNumber : Type :=
  | FiniteNumber (q : Q)
  | NotANumber
  | InfiniteNumber.

(** Modelled from the spec: the union-typed numeric input as a tagged
    variant, one tag for text, one for a native number, one for an unbounded
    integer, and one for a null or undefined input. *)
Inductive NumericInput : Type :=
  | TextInput (s : string)
  | NumberInput (n : NativeNumber)
  | BigIntInput (z : Z)
  | MissingInput.

(** Modelled from the spec: the Numeric Normalizer of
    [utils/validation.ts], which is not among the sources.  An unbounded
    integer is its own value; a text must be an optional minus sign
    followed by decimal digits only; a native number must be finite and
    integer-valued; anything else fails with a ValidationError. *)
Definition normalize (input : NumericInput) : Outcome Z :=
  match input with
  | BigIntInput z => Returns z
  | TextInput s =>
      match NilZero.int_of_string s with
      | Some d => Returns (Z.of_int d)
      | None => Throws ValidationError
      end
  | NumberInput (FiniteNumber q) =>
      if (Qden (Qred q) =? 1)%positive then Returns (Qnum (Qred q))
      else Throws ValidationError
  | NumberInput NotANumber => Throws ValidationError
  | NumberInput InfiniteNumber => Throws ValidationError
  | MissingInput => Throws ValidationError
  end.

(** Modelled from the spec: [divide] of [operations/arithmetic.ts], which
    is not among the sources.  Both operands are normalized; a divisor that
    normalizes to zero fails with a ValidationError (DivisionByZero);
    otherwise the quotient of the two integers is returned. *)
Definition divide (a b : NumericInput) : Outcome Z :=
  match normalize a with
  | Throws e => Throws e
  | Returns x =>
      match normalize b with
      | Throws e => Throws e
      | Returns y => if y =? 0 then Throws ValidationError else Returns (x ÷ y)
      end
  end.

End Arithmetic.

(** ** Conflict resolution with array identity ([dimensionUtils.ts]) *)

Module ConflictArrays.

Import Conflicts.

(** A store in which arrays are objects too: a profile object lives at a
    location of [objects], an array of profiles at a location of [arrays],
    and a reference to an array is its location. *)
Record Store : Type := {
  objects : gmap nat DimensionProfile;
  arrays : gmap nat (list nat)
}.

(** [[...profiles]]: a new array, at a location that no array occupies,
    holding the references of [contents]. *)
Definition spread (s : Store) (contents : list nat) : Store * nat :=
  let a := fresh (dom (arrays s)) in
  ({| objects := objects s; arrays := <[a := contents]> (arrays s) |}, a).

(** The object that [resolveDimensionConflicts] returns, its array given by
    reference. *)
Record ResolutionRef : Type := {
  resolution_text : string;
  adjustedProfiles_ref : nat
}.

(** [resolveDimensionConflicts(profiles)] with the identity of the arrays:
    without a conflict the function returns the array it was given; with a
    conflict it returns the new array made by [[...profiles]].  The profile
    objects and the text are those of [Conflicts.resolveDimensionConflicts]. *)
Definition resolveDimensionConflicts_ref (s : Store) (profiles : nat)
  : Store * ResolutionRef :=
  let contents := default [] (arrays s !! profiles) in
  let conflicts := checkDimensionConflicts (objects s) contents in
  let '(objects', r) := resolveDimensionConflicts (objects s) contents in
  if (length conflicts =? 0)%nat then
    ({| objects := objects'; arrays := arrays s |},
     {| resolution_text := resolution r; adjustedProfiles_ref := profiles |})
  else
    let '(s1, adjustedProfiles) := spread s (Conflicts.adjustedProfiles r) in
    ({| objects := objects'; arrays := arrays s1 |},
     {| resolution_text := resolution r; adjustedProfiles_ref := adjustedProfiles |}).

End ConflictArrays.

(** ** Fixtures *)

(** A configuration with overflow checking disabled, as in the
    cryptographic scenario of the demo. *)
Definition unchecked_config : HypernumConfig :=
  {| precision := Some 0; checkOverflow := false;
     maxSteps := Some 1000; debug := false |}.

(** Two profile objects in conflict: a PRECISION_TENSION profile at
    location 0 and a HEURISTIC_FIT profile at location 1. *)
Definition precision_profile : DimensionProfile :=
  {| dimension := PRECISION_TENSION; activation := 9 # 10;
     threshold := 3 # 10; evidence := [] |}.

Definition heuristic_profile : DimensionProfile :=
  {| dimension := HEURISTIC_FIT; activation := 8 # 10;
     threshold := 5 # 10; evidence := [] |}.

Definition conflict_heap : gmap nat DimensionProfile :=
  <[1%nat := heuristic_profile]> (<[0%nat := precision_profile]> ∅).

Definition conflict_profiles : list nat := [0%nat; 1%nat].

(** A GROWTH_RISK profile at location 0 and a RECURSION_DEPTH profile at
    location 1, held by the array at location 0. *)
Definition growth_profile : DimensionProfile :=
  {| dimension := GROWTH_RISK; activation := 7 # 10;
     threshold := 5 # 10; evidence := [] |}.

Definition recursion_profile : DimensionProfile :=
  {| dimension := RECURSION_DEPTH; activation := 5 # 10;
     threshold := 4 # 10; evidence := [] |}.

Definition growth_recursion_store : ConflictArrays.Store :=
  {| ConflictArrays.objects :=
       <[1%nat := recursion_profile]> (<[0%nat := growth_profile]> ∅);
     ConflictArrays.arrays := <[0%nat := [0%nat; 1%nat]]> ∅ |}.

(** * Properties *)

(** ** Counted loops *)

Section ForRangeFacts.

Context {St : Type}.
Implicit Types (body : Z -> St -> St) (s : St).

(** The last iteration of a counted loop can be peeled off. *)
Lemma for_range_snoc body m i s :
  for_range (Datatypes.S m) i body s
  = body (i + Z.of_nat m) (for_range m i body s).
Proof.
  revert i s. induction m as [|m IH]; intros i s.
  - simpl. now rewrite Z.add_0_r.
  - change (for_range (Datatypes.S (Datatypes.S m)) i body s)
      with (for_range (Datatypes.S m) (i + 1) body (body i s)).
    rewrite IH. simpl for_range. f_equal. lia.
Qed.

Lemma for_lt_none body lo hi s : hi <= lo -> for_lt lo hi body s = s.
Proof.
  intros H. unfold for_lt. now replace (Z.to_nat (hi - lo)) with O by lia.
Qed.

End ForRangeFacts.

(** ** Binomial coefficients *)

Module BinomialFacts.

Import Binomial.

Lemma choose_0_r (n : nat) : choose n 0 = 1.
Proof. destruct n; reflexivity. Qed.

Lemma choose_gt (n k : nat) : (n < k)%nat -> choose n k = 0.
Proof.
  revert k. induction n as [|n IH]; intros [|k] H; simpl; try lia.
  rewrite !IH by lia. reflexivity.
Qed.

Lemma choose_diag (n : nat) : choose n n = 1.
Proof.
  induction n as [|n IH]; simpl; [reflexivity|].
  rewrite IH, choose_gt by lia. reflexivity.
Qed.

Lemma choose_nonneg (n k : nat) : 0 <= choose n k.
Proof.
  revert k. induction n as [|n IH]; intros [|k]; simpl; try lia.
  pose proof (IH k). pose proof (IH (Datatypes.S k)). lia.
Qed.

(** The absorption identity behind the multiply-then-divide step. *)
Lemma choose_absorb (n j : nat) :
  choose n (Datatypes.S j) * (Z.of_nat j + 1)
  = choose n j * (Z.of_nat n - Z.of_nat j).
Proof.
  revert j. induction n as [|n IH]; intros j.
  - destruct j; simpl; lia.
  - destruct j as [|j].
    + pose proof (IH O) as H0. simpl in *. destruct n; simpl in *; lia.
    + pose proof (IH j) as Hj. pose proof (IH (Datatypes.S j)) as HSj.
      change (choose (Datatypes.S n) (Datatypes.S (Datatypes.S j)))
        with (choose n (Datatypes.S j) + choose n (Datatypes.S (Datatypes.S j))).
      change (choose (Datatypes.S n) (Datatypes.S j))
        with (choose n j + choose n (Datatypes.S j)).
      rewrite !Nat2Z.inj_succ in *. nia.
Qed.

Lemma choose_sym (n k : nat) : (k <= n)%nat -> choose n k = choose n (n - k).
Proof.
  revert k. induction n as [|n IH]; intros k H.
  - now replace k with O by lia.
  - destruct k as [|k].
    + rewrite Nat.sub_0_r, choose_diag. reflexivity.
    + destruct (Nat.eq_dec k n) as [->|Hne].
      * rewrite Nat.sub_diag, choose_diag. reflexivity.
      * replace (Datatypes.S n - Datatypes.S k)%nat
          with (Datatypes.S (n - Datatypes.S k)) by lia.
        simpl choose.
        rewrite (IH k) by lia. rewrite (IH (Datatypes.S k)) by lia.
        replace (n - k)%nat with (Datatypes.S (n - Datatypes.S k)) by lia.
        lia.
Qed.

(** [choose] is the binomial coefficient of the factorial formula. *)
Lemma choose_fact (n k : nat) :
  (k <= n)%nat -> choose n k * fact k * fact (n - k) = fact n.
Proof.
  induction k as [|k IH]; intros H.
  - rewrite Nat.sub_0_r. destruct n; simpl choose; simpl fact; lia.
  - specialize (IH ltac:(lia)).
    replace (n - k)%nat with (Datatypes.S (n - Datatypes.S k)) in IH by lia.
    pose proof (choose_absorb n k) as Ha.
    change (fact (Datatypes.S k)) with (Z.of_nat (Datatypes.S k) * fact k).
    change (fact (Datatypes.S (n - Datatypes.S k)))
      with (Z.of_nat (Datatypes.S (n - Datatypes.S k)) * fact (n - Datatypes.S k)) in IH.
    replace (Z.of_nat (Datatypes.S (n - Datatypes.S k)))
      with (Z.of_nat n - Z.of_nat k) in IH by lia.
    replace (Z.of_nat (Datatypes.S k)) with (Z.of_nat k + 1) by lia.
    rewrite <- IH.
    transitivity (choose n (Datatypes.S k) * (Z.of_nat k + 1)
                  * fact k * fact (n - Datatypes.S k)); [ring|].
    rewrite Ha. ring.
Qed.

Lemma iterative_acc_succ (n : Z) (j : nat) :
  iterative_acc n (Datatypes.S j)
  = iterative_step n (Z.of_nat j + 1) (iterative_acc n j).
Proof.
  unfold iterative_acc. rewrite for_range_snoc. f_equal. lia.
Qed.

(** The numerator of every step is a multiple of its divisor. *)
Lemma iterative_numerator (n j : nat) :
  choose n j * (Z.of_nat n - (Z.of_nat j + 1) + 1)
  = choose n (Datatypes.S j) * (Z.of_nat j + 1).
Proof. rewrite choose_absorb. f_equal. lia. Qed.

(** Loop invariant: after [j] iterations the accumulator is [C(n, j)]. *)
Lemma iterative_acc_choose (n j : nat) :
  iterative_acc (Z.of_nat n) j = choose n j.
Proof.
  induction j as [|j IH]; [now rewrite choose_0_r|].
  rewrite iterative_acc_succ, IH. unfold iterative_step.
  rewrite iterative_numerator. apply Z.quot_mul. lia.
Qed.

(** The loop of [computeIterativeBinomial] runs [min(k, n-k)] times. *)
Lemma computeIterativeBinomial_acc (n k : Z) :
  0 <= k <= n ->
  computeIterativeBinomial n k = iterative_acc n (Z.to_nat (Z.min k (n - k))).
Proof.
  intros H. unfold computeIterativeBinomial.
  destruct (Z.gtb_spec k n); [lia|].
  destruct (Z.eqb_spec k 0) as [->|Hk0]; simpl.
  { now replace (Z.min 0 (n - 0)) with 0 by lia. }
  destruct (Z.eqb_spec k n) as [->|Hn]; simpl.
  { now replace (Z.min n (n - n)) with 0 by lia. }
  unfold for_le, for_lt, iterative_acc. f_equal.
  destruct (Z.gtb_spec k (n - k)); lia.
Qed.

(** Loop invariant of [computeStagedBinomial]: the pair after [j]
    iterations is the accumulator of the iterative loop and [n - j]. *)
Lemma staged_loop_acc (n : Z) (j : nat) :
  for_range j 0 staged_step (1, n) = (iterative_acc n j, n - Z.of_nat j).
Proof.
  induction j as [|j IH].
  - simpl. f_equal. lia.
  - rewrite for_range_snoc, IH, iterative_acc_succ.
    unfold staged_step, iterative_step. f_equal; [|lia].
    f_equal; lia.
Qed.

Lemma computeStagedBinomial_acc {Config : Type} (n k : Z) (config : Config) :
  computeStagedBinomial n k config
  = iterative_acc n (Z.to_nat (if k >? n - k then n - k else k)).
Proof.
  unfold computeStagedBinomial, for_lt.
  rewrite Z.sub_0_r, staged_loop_acc. reflexivity.
Qed.

End BinomialFacts.

(** ** The binomial claims *)

Module BinomialClaims.

Import Binomial BinomialFacts.

(** C2.  For every [n >= 0] and [0 <= k <= n], the loop of
    [computeIterativeBinomial] runs for [i = 1 .. min(k, n-k)]; at every step
    the product [result * (n-i+1)] is divided by [i] without remainder and
    the accumulator becomes the binomial coefficient [C(n,i)]; the value
    returned is [C(n,k)], the integer with [C(n,k) * k! * (n-k)! = n!]; and
    [binomial(10,3) = 120]. *)
Theorem iterative_binomial_exact (n k : Z) :
  0 <= n -> 0 <= k <= n ->
  (forall i, 1 <= i <= Z.min k (n - k) ->
     let result := iterative_acc n (Z.to_nat (i - 1)) in
     Z.rem (result * (n - i + 1)) i = 0
     /\ iterative_acc n (Z.to_nat i) = iterative_step n i result
     /\ iterative_acc n (Z.to_nat i) = choose (Z.to_nat n) (Z.to_nat i))
  /\ computeIterativeBinomial n k = iterative_acc n (Z.to_nat (Z.min k (n - k)))
  /\ computeIterativeBinomial n k = choose (Z.to_nat n) (Z.to_nat k)
  /\ computeIterativeBinomial n k * fact (Z.to_nat k) * fact (Z.to_nat (n - k))
     = fact (Z.to_nat n)
  /\ computeIterativeBinomial 10 3 = 120.
Proof.
  intros Hn Hk.
  assert (Hres : computeIterativeBinomial n k = choose (Z.to_nat n) (Z.to_nat k)).
  { rewrite computeIterativeBinomial_acc by assumption.
    rewrite <- (Z2Nat.id n) at 1 by assumption.
    rewrite iterative_acc_choose.
    destruct (Z.le_ge_cases k (n - k)) as [Hle|Hge].
    - now rewrite Z.min_l by assumption.
    - rewrite Z.min_r by assumption.
      rewrite (choose_sym (Z.to_nat n) (Z.to_nat k)) by lia.
      f_equal. lia. }
  split; [|repeat split; try assumption].
  - (* the steps of the loop *)
    intros i Hi result. subst result.
    remember (Z.to_nat (i - 1)) as j eqn:Hj.
    assert (Hi' : i = Z.of_nat j + 1) by lia.
    replace (Z.to_nat i) with (Datatypes.S j) by lia.
    rewrite iterative_acc_succ, <- Hi'.
    split; [|split; [reflexivity|]].
    + rewrite <- (Z2Nat.id n) by assumption.
      rewrite iterative_acc_choose, Hi', iterative_numerator.
      apply Z.rem_mul. lia.
    + rewrite Hi', <- iterative_acc_succ.
      rewrite <- (Z2Nat.id n) at 1 by assumption.
      apply iterative_acc_choose.
  - now apply computeIterativeBinomial_acc.
  - rewrite Hres. rewrite <- (choose_fact (Z.to_nat n) (Z.to_nat k)) by lia.
    do 2 f_equal. lia.
Qed.

Lemma iterative_binomial_exact_witness :
  0 <= 10 /\ 0 <= 3 <= 10 /\ computeIterativeBinomial 10 3 = choose 10 3.
Proof.
  split; [lia|]. split; [lia|].
  destruct (iterative_binomial_exact 10 3) as (_ & _ & H & _); [lia | lia |].
  exact H.
Defined.

(** C5.  For every [n >= 0] and [0 <= k <= n],
    [binomial(n,k) = binomial(n,n-k)]. *)
Theorem binomial_symmetry (n k : Z) :
  0 <= n -> 0 <= k <= n ->
  computeIterativeBinomial n k = computeIterativeBinomial n (n - k).
Proof.
  intros Hn Hk.
  rewrite !computeIterativeBinomial_acc by lia.
  do 2 f_equal. lia.
Qed.

Lemma binomial_symmetry_witness :
  0 <= 10 /\ 0 <= 3 <= 10
  /\ computeIterativeBinomial 10 3 = computeIterativeBinomial 10 (10 - 3).
Proof.
  split; [lia|]. split; [lia|]. apply binomial_symmetry; lia.
Defined.

(** C8.  For every [n >= 0], every [0 <= k <= n] and every configuration
    [c], [computeStagedBinomial(n, k, c) = computeIterativeBinomial(n, k)]:
    the configuration does not affect the result. *)
Theorem staged_iterative_agree (n k : Z) (c : HypernumConfig) :
  0 <= n -> 0 <= k <= n ->
  computeStagedBinomial n k c = computeIterativeBinomial n k.
Proof.
  intros Hn Hk.
  rewrite computeStagedBinomial_acc, computeIterativeBinomial_acc by assumption.
  f_equal. destruct (Z.gtb_spec k (n - k)); lia.
Qed.

Lemma staged_iterative_agree_witness :
  0 <= 10 /\ 0 <= 3 <= 10
  /\ computeStagedBinomial 10 3
       {| precision := Some 15; checkOverflow := true;
          maxSteps := Some 1000; debug := true |}
     = computeIterativeBinomial 10 3.
Proof.
  split; [lia|]. split; [lia|]. apply staged_iterative_agree; lia.
Defined.

(** C9.  For every [n >= 0] and every [k > n],
    [computeIterativeBinomial(n, k)] returns [0]; no error is raised. *)
Theorem iterative_binomial_above (n k : Z) :
  0 <= n -> n < k -> computeIterativeBinomial n k = 0.
Proof.
  intros Hn Hk. unfold computeIterativeBinomial.
  destruct (Z.gtb_spec k n); [reflexivity | lia].
Qed.

Lemma iterative_binomial_above_witness :
  0 <= 3 /\ 3 < 5 /\ computeIterativeBinomial 3 5 = 0.
Proof.
  split; [lia|]. split; [lia|]. apply iterative_binomial_above; lia.
Defined.

End BinomialClaims.

(** ** Decimal digits *)

Module DigitsFacts.

Import Digits.

Lemma digits_aux_spec (fuel : nat) (a : Z) :
  0 < a -> Z.log2 a <= Z.of_nat fuel ->
  1 <= digits_aux fuel a
  /\ 10 ^ (digits_aux fuel a - 1) <= a < 10 ^ digits_aux fuel a.
Proof.
  revert a. induction fuel as [|fuel IH]; intros a Ha Hlog.
  - assert (a < 2 ^ 1) by (apply Z.log2_lt_pow2; lia).
    simpl. change (2 ^ 1) with 2 in *. change (10 ^ (1 - 1)) with 1.
    change (10 ^ 1) with 10. lia.
  - simpl digits_aux. destruct (Z.ltb_spec a 10) as [Hlt|Hge].
    + change (10 ^ (1 - 1)) with 1. change (10 ^ 1) with 10. lia.
    + assert (Hq : a ÷ 10 = a / 10) by (apply Z.quot_div_nonneg; lia).
      rewrite Hq.
      pose proof (Z.div_mod a 10 ltac:(lia)) as Hdm.
      pose proof (Z.mod_pos_bound a 10 ltac:(lia)) as Hmod.
      assert (Hpos : 0 < a / 10) by lia.
      assert (Hlog' : Z.log2 (a / 10) <= Z.of_nat fuel).
      { assert (a < 2 ^ (Z.of_nat fuel + 2)) as Hb
          by (apply Z.log2_lt_pow2; lia).
        rewrite Z.pow_add_r in Hb by lia. change (2 ^ 2) with 4 in Hb.
        assert (a / 10 < 2 ^ (Z.of_nat fuel + 1)) as Hb'.
        { rewrite Z.pow_add_r by lia. change (2 ^ 1) with 2.
          pose proof (Z.pow_pos_nonneg 2 (Z.of_nat fuel) ltac:(lia) ltac:(lia)).
          lia. }
        apply Z.log2_lt_pow2 in Hb'; lia. }
      destruct (IH (a / 10) Hpos Hlog') as (Hd & Hlo & Hhi).
      set (d := digits_aux fuel (a / 10)) in *.
      split; [lia|].
      replace (1 + d - 1) with (1 + (d - 1)) by lia.
      rewrite !Z.pow_add_r by lia. change (10 ^ 1) with 10. lia.
Qed.

(** [decimal_digits z] is the number of decimal digits of [|z|]. *)
Lemma decimal_digits_spec (z : Z) :
  z <> 0 ->
  1 <= decimal_digits z
  /\ 10 ^ (decimal_digits z - 1) <= Z.abs z < 10 ^ decimal_digits z.
Proof.
  intros Hz. unfold decimal_digits. apply digits_aux_spec; [lia|].
  rewrite Z2Nat.id by apply Z.log2_nonneg. lia.
Qed.

Lemma decimal_digits_0 : decimal_digits 0 = 1.
Proof. reflexivity. Qed.

Lemma decimal_digits_le (z n : Z) :
  1 <= n -> Z.abs z < 10 ^ n -> decimal_digits z <= n.
Proof.
  intros Hn Hlt. destruct (Z.eq_dec z 0) as [->|Hz].
  - rewrite decimal_digits_0. assumption.
  - destruct (decimal_digits_spec z Hz) as (Hd & Hlo & _).
    destruct (Z.le_gt_cases (decimal_digits z) n) as [|Hgt]; [assumption|].
    assert (10 ^ n <= 10 ^ (decimal_digits z - 1))
      by (apply Z.pow_le_mono_r; lia).
    lia.
Qed.

Lemma toString_length_nonneg (z : Z) :
  0 <= z -> toString_length z = decimal_digits z.
Proof.
  intros Hz. unfold toString_length.
  destruct (Z.ltb_spec z 0); lia.
Qed.

Lemma toString_length_neg (z : Z) :
  z < 0 -> toString_length z = 1 + decimal_digits z.
Proof.
  intros Hz. unfold toString_length.
  destruct (Z.ltb_spec z 0); lia.
Qed.

(** The arithmetic length agrees with the length of the printed string on
    sample values. *)
Example toString_length_samples :
  map toString_length [0; 7; 10; 999; 1000; -1; -10; -99999; 2 ^ 64; - (10 ^ 40)]
  = map (fun z => Z.of_nat (String.length (toString z)))
        [0; 7; 10; 999; 1000; -1; -10; -99999; 2 ^ 64; - (10 ^ 40)].
Proof. vm_compute. reflexivity. Qed.

End DigitsFacts.

(** ** The underlying power operation *)

Module PowerFacts.

Import Power.

Lemma overflow_guard_off (maxBits v : Z) :
  overflow_guard false maxBits v = Returns v.
Proof. reflexivity. Qed.

Lemma power_loop_unchecked (maxBits : Z) (e : positive) :
  forall result base,
    power_loop (overflow_guard false maxBits) result base e
    = Returns (result * base ^ Z.pos e).
Proof.
  induction e as [e IH|e IH|]; intros result base; cbn [power_loop];
    rewrite ?overflow_guard_off.
  - rewrite IH. f_equal.
    rewrite Pos2Z.inj_xI, Z.pow_add_r, Z.pow_mul_r by lia.
    rewrite Z.pow_1_r, Z.pow_2_r. ring.
  - rewrite IH. f_equal.
    rewrite Pos2Z.inj_xO, Z.pow_mul_r by lia.
    rewrite Z.pow_2_r. reflexivity.
  - f_equal. rewrite Z.pow_1_r. reflexivity.
Qed.

(** With overflow checking off, the modelled [power.power] is exact. *)
Lemma power_exact_unchecked (maxBits base exponent : Z) (config : HypernumConfig) :
  0 <= exponent -> checkOverflow config = false ->
  power maxBits base exponent config = Returns (base ^ exponent).
Proof.
  intros He Hc. unfold power. rewrite Hc.
  destruct exponent as [|e|e]; [reflexivity | | lia].
  rewrite power_loop_unchecked. f_equal. ring.
Qed.

Lemma power_negative (maxBits base exponent : Z) (config : HypernumConfig) :
  exponent < 0 -> power maxBits base exponent config = Throws ValidationError.
Proof. intros He. destruct exponent; [lia | lia | reflexivity]. Qed.

(** The fixture of the spec: [power(2,1000)] under a 64-bit bound. *)
Example power_2_1000_checked :
  power 64 2 1000
    {| precision := None; checkOverflow := true; maxSteps := None; debug := false |}
  = Throws OverflowError.
Proof. vm_compute. reflexivity. Qed.

End PowerFacts.

(** ** Strategy selection *)

Module StrategyFacts.

Import Strategy.

Lemma dimension_eqb_eq (a b : StrategyDimension) :
  dimension_eqb a b = true <-> a = b.
Proof. destruct a, b; simpl; split; intros H; congruence. Qed.

Lemma includes_In (dims : list StrategyDimension) (d : StrategyDimension) :
  includes dims d = true <-> In d dims.
Proof.
  unfold includes. rewrite existsb_exists. split.
  - intros (x & Hx & Heq). apply dimension_eqb_eq in Heq. now subst.
  - intros H. exists d. split; [assumption | now apply dimension_eqb_eq].
Qed.

Lemma promoteToDimension_dimension (input : Z) (p : DimensionProfile) :
  promoteToDimension input = Some p ->
  dimension p = GROWTH_RISK /\ isPromotableScalar input = true.
Proof.
  unfold promoteToDimension.
  destruct (isPromotableScalar input); simpl; [|discriminate].
  intros [= <-]. split; reflexivity.
Qed.

(** Where the profiles of [detectDimensions] come from: a GROWTH_RISK
    profile is a promoted input, the others are read off the
    configuration. *)
Lemma detectDimensions_In (inputs : list Z) (config : HypernumConfig)
  (p : DimensionProfile) :
  In p (detectDimensions inputs config) ->
  (dimension p = GROWTH_RISK
   /\ exists input, In input inputs /\ isPromotableScalar input = true)
  \/ dimension p = PRECISION_TENSION
  \/ dimension p = RECURSION_DEPTH
  \/ dimension p = USER_INTENT.
Proof.
  unfold detectDimensions. rewrite !in_app_iff.
  intros [H|[H|[H|H]]].
  - left. apply in_flat_map in H as (input & Hin & Hp).
    destruct (promoteToDimension input) as [q|] eqn:Hq; [|contradiction].
    destruct (is_active q); [|contradiction].
    destruct Hp as [<-|[]].
    apply promoteToDimension_dimension in Hq as [Hd Hprom].
    split; [assumption|]. exists input. split; assumption.
  - right; left. destruct (field_above (precision config) 10); [|contradiction].
    destruct H as [<-|[]]. reflexivity.
  - right; right; left.
    destruct (field_above (maxSteps config) 500); [|contradiction].
    destruct H as [<-|[]]. reflexivity.
  - right; right; right. destruct (debug config); [|contradiction].
    destruct H as [<-|[]]. reflexivity.
Qed.

Lemma active_dimension_In (inputs : list Z) (config : HypernumConfig)
  (d : StrategyDimension) :
  includes (map dimension (List.filter is_active (detectDimensions inputs config))) d
  = true ->
  exists p, In p (detectDimensions inputs config) /\ dimension p = d.
Proof.
  intros H. apply includes_In, in_map_iff in H as (p & Hd & Hp).
  apply filter_In in Hp as [Hp _]. exists p. split; assumption.
Qed.

(** No profile of [detectDimensions] is a HEURISTIC_FIT profile, so the
    heuristic strategy is never selected. *)
Lemma resolveStrategy_not_heuristic (inputs : list Z) (config : HypernumConfig) :
  primary (resolveStrategy inputs config) <> heuristic.
Proof.
  unfold resolveStrategy.
  destruct (includes _ GROWTH_RISK).
  - destruct (includes _ HEURISTIC_FIT) eqn:E; [|discriminate].
    apply active_dimension_In in E as (p & Hp & Hd).
    apply detectDimensions_In in Hp as [[Hg _]|[Ht|[Hr|Hu]]]; congruence.
  - destruct (includes _ PRECISION_TENSION); [discriminate|].
    destruct (includes _ RECURSION_DEPTH); discriminate.
Qed.

(** The staged strategy needs a promotable input. *)
Lemma resolveStrategy_staged (inputs : list Z) (config : HypernumConfig) :
  primary (resolveStrategy inputs config) = staged ->
  exists input, In input inputs /\ isPromotableScalar input = true.
Proof.
  unfold resolveStrategy.
  destruct (includes _ GROWTH_RISK) eqn:E.
  - intros _. apply active_dimension_In in E as (p & Hp & Hd).
    apply detectDimensions_In in Hp as [[_ Hex]|[Ht|[Hr|Hu]]];
      [assumption | congruence ..].
  - destruct (includes _ PRECISION_TENSION); [discriminate|].
    destruct (includes _ RECURSION_DEPTH); discriminate.
Qed.

End StrategyFacts.

(** ** The chunked power loop *)

Module SmartPowerFacts.

Import SmartPower.

(** The inner loop [for (i = 0n; i < chunk; i++) chunkResult *= currentBase]. *)
Lemma chunk_loop_pow (base : Z) (m : nat) (i acc : Z) :
  for_range m i (fun _ acc => acc * base) acc = acc * base ^ Z.of_nat m.
Proof.
  revert i acc. induction m as [|m IH]; intros i acc.
  - cbn [for_range]. rewrite Nat2Z.inj_0, Z.pow_0_r. ring.
  - cbn [for_range]. rewrite IH, Nat2Z.inj_succ, Z.pow_succ_r by lia. ring.
Qed.

Lemma chunkResult_pow (base chunk : Z) :
  0 <= chunk -> for_lt 0 chunk (fun _ acc => acc * base) 1 = base ^ chunk.
Proof.
  intros H. unfold for_lt. rewrite chunk_loop_pow, Z.sub_0_r, Z2Nat.id by lia.
  ring.
Qed.

(** The loop is over as soon as nothing remains, whatever the fuel. *)
Lemma iterative_loop_done (fuel : nat) (base chunkSize result remaining : Z) :
  remaining <= 0 ->
  iterative_loop fuel base chunkSize result remaining = Some (Returns result).
Proof.
  intros H. destruct fuel; simpl; destruct (Z.gtb_spec remaining 0); (lia || reflexivity).
Qed.

(** Loop invariant: before iteration [k+1] the accumulator is
    [base ^ (chunkSize * k)] and [exponent - chunkSize * k] remains.  With
    fuel for the remaining iterations the loop ends, either with
    [base ^ exponent] or with a ValidationError raised at an accumulated
    result [base ^ min(chunkSize * j, exponent)] whose decimal string is
    longer than 1000 characters. *)
Lemma iterative_loop_spec (base chunkSize exponent : Z) :
  0 < chunkSize ->
  forall (fuel : nat) (k : Z),
    0 <= k -> chunkSize * k <= exponent ->
    (Z.to_nat (exponent - chunkSize * k) <= fuel)%nat ->
    exists r,
      iterative_loop fuel base chunkSize (base ^ (chunkSize * k))
        (exponent - chunkSize * k) = Some r
      /\ (r = Returns (base ^ exponent)
          \/ (r = Throws ValidationError
              /\ exists j, k < j /\ chunkSize * (j - 1) < exponent
                 /\ 1000 < Digits.toString_length
                             (base ^ Z.min (chunkSize * j) exponent))).
Proof.
  intros Hc. induction fuel as [|fuel IH]; intros k Hk Hle Hfuel.
  - assert (exponent - chunkSize * k = 0) as -> by lia.
    exists (Returns (base ^ (chunkSize * k))). split; [reflexivity|].
    left. do 2 f_equal. lia.
  - destruct (Z.eq_dec (exponent - chunkSize * k) 0) as [E|E].
    { rewrite iterative_loop_done by lia. eexists. split; [reflexivity|].
      left. do 2 f_equal. lia. }
    cbn [iterative_loop].
    destruct (Z.gtb_spec (exponent - chunkSize * k) 0) as [_|]; [|lia].
    set (remaining := exponent - chunkSize * k) in *.
    set (chunk := if remaining >? chunkSize then chunkSize else remaining).
    assert (Hchunk : 0 < chunk <= remaining /\ chunk <= chunkSize).
    { unfold chunk. destruct (Z.gtb_spec remaining chunkSize); lia. }
    rewrite chunkResult_pow by lia.
    rewrite <- Z.pow_add_r by nia.
    assert (Hmin : chunkSize * k + chunk = Z.min (chunkSize * (k + 1)) exponent).
    { unfold chunk. destruct (Z.gtb_spec remaining chunkSize); lia. }
    destruct (Z.gtb_spec (Digits.toString_length (base ^ (chunkSize * k + chunk))) 1000)
      as [Hlong|Hshort].
    + eexists. split; [reflexivity|]. right. split; [reflexivity|].
      exists (k + 1). rewrite <- Hmin. split; [lia|]. split; [|lia].
      replace (k + 1 - 1) with k by lia. lia.
    + destruct (Z.gtb_spec remaining chunkSize) as [Hmore|Hlast].
      * (* a full chunk, and more remains *)
        assert (chunk = chunkSize) as Hck
          by (unfold chunk; destruct (Z.gtb_spec remaining chunkSize); lia).
        rewrite Hck.
        replace (chunkSize * k + chunkSize) with (chunkSize * (k + 1)) by lia.
        replace (remaining - chunkSize) with (exponent - chunkSize * (k + 1))
          by (unfold remaining; lia).
        destruct (IH (k + 1)) as (r & Hr & Hcases); [lia | lia | lia |].
        exists r. split; [assumption|].
        destruct Hcases as [Hret|(Hthr & j & Hj1 & Hj2 & Hj3)]; [now left|].
        right. split; [assumption|]. exists j. repeat split; (lia || assumption).
      * (* the last chunk *)
        assert (chunk = remaining) as Hck
          by (unfold chunk; destruct (Z.gtb_spec remaining chunkSize); lia).
        rewrite Hck, iterative_loop_done by lia.
        eexists. split; [reflexivity|]. left. do 2 f_equal.
        unfold remaining. lia.
Qed.

(** A negative exponent never enters the loop. *)
Lemma computeIterativePower_negative (fuel : nat) (base exponent chunkSize : Z) :
  exponent < 0 ->
  computeIterativePower fuel base exponent chunkSize = Some (Returns 1).
Proof.
  intros H. unfold computeIterativePower.
  destruct (Z.eqb_spec exponent 0); [lia|].
  destruct (Z.eqb_spec exponent 1); [lia|].
  apply iterative_loop_done. lia.
Qed.

(** The only error the loop raises is a ValidationError. *)
Lemma iterative_loop_throws (fuel : nat) (base chunkSize : Z) :
  forall result remaining e,
    iterative_loop fuel base chunkSize result remaining = Some (Throws e) ->
    e = ValidationError.
Proof.
  induction fuel as [|fuel IH]; intros result remaining e; cbn [iterative_loop];
    destruct (remaining >? 0); try discriminate.
  destruct (Digits.toString_length _ >? 1000).
  - now intros [= <-].
  - apply IH.
Qed.

Lemma computeIterativePower_throws (fuel : nat) (base exponent chunkSize : Z)
  (e : ErrorKind) :
  computeIterativePower fuel base exponent chunkSize = Some (Throws e) ->
  e = ValidationError.
Proof.
  unfold computeIterativePower.
  destruct (exponent =? 0); [discriminate|].
  destruct (exponent =? 1); [discriminate|].
  apply iterative_loop_throws.
Qed.

(** [computeIterativePower] on a non-negative exponent and a positive chunk
    size, with fuel for [exponent] iterations. *)
Lemma computeIterativePower_spec (fuel : nat) (base exponent chunkSize : Z) :
  0 <= exponent -> 0 < chunkSize -> (Z.to_nat exponent <= fuel)%nat ->
  exists r,
    computeIterativePower fuel base exponent chunkSize = Some r
    /\ (r = Returns (base ^ exponent)
        \/ (r = Throws ValidationError
            /\ exists j, 0 < j /\ chunkSize * (j - 1) < exponent
               /\ 1000 < Digits.toString_length
                           (base ^ Z.min (chunkSize * j) exponent))).
Proof.
  intros He Hc Hfuel. unfold computeIterativePower.
  destruct (Z.eqb_spec exponent 0) as [->|H0].
  { eexists. split; [reflexivity|]. now left. }
  destruct (Z.eqb_spec exponent 1) as [->|H1].
  { eexists. split; [reflexivity|]. left. now rewrite Z.pow_1_r. }
  destruct (iterative_loop_spec base chunkSize exponent Hc fuel 0)
    as (r & Hr & Hcases); [lia | lia | |].
  { rewrite Z.mul_0_r, Z.sub_0_r. assumption. }
  rewrite Z.mul_0_r, Z.sub_0_r in Hr. change (base ^ 0) with 1 in Hr.
  exists r. split; assumption.
Qed.

(** A value that the chunked loop returns has passed the length test at
    every accumulated result. *)
Lemma iterative_loop_returns_all (base chunkSize exponent : Z) :
  0 < chunkSize ->
  forall (fuel : nat) (k : Z) (v : Z),
    0 <= k -> chunkSize * k <= exponent ->
    iterative_loop fuel base chunkSize (base ^ (chunkSize * k))
      (exponent - chunkSize * k) = Some (Returns v) ->
    forall j, k < j -> chunkSize * (j - 1) < exponent ->
      Digits.toString_length (base ^ Z.min (chunkSize * j) exponent) <= 1000.
Proof.
  intros Hc. induction fuel as [|fuel IH]; intros k v Hk Hle Hloop j Hj1 Hj2.
  - cbn [iterative_loop] in Hloop.
    destruct (Z.gtb_spec (exponent - chunkSize * k) 0); [discriminate | nia].
  - cbn [iterative_loop] in Hloop.
    destruct (Z.gtb_spec (exponent - chunkSize * k) 0) as [Hpos|]; [|nia].
    set (remaining := exponent - chunkSize * k) in *.
    set (chunk := if remaining >? chunkSize then chunkSize else remaining) in *.
    assert (Hchunk : 0 < chunk <= remaining /\ chunk <= chunkSize).
    { unfold chunk. destruct (Z.gtb_spec remaining chunkSize); lia. }
    rewrite chunkResult_pow in Hloop by lia.
    rewrite <- Z.pow_add_r in Hloop by nia.
    assert (Hmin : chunkSize * k + chunk = Z.min (chunkSize * (k + 1)) exponent).
    { unfold chunk. destruct (Z.gtb_spec remaining chunkSize); lia. }
    destruct (Z.gtb_spec (Digits.toString_length (base ^ (chunkSize * k + chunk))) 1000)
      as [Hlong|Hshort]; [discriminate|].
    destruct (Z.eq_dec j (k + 1)) as [->|Hne].
    + rewrite <- Hmin. exact Hshort.
    + assert (Hmore : chunkSize < remaining) by (unfold remaining; nia).
      assert (chunk = chunkSize) as Hck
        by (unfold chunk; destruct (Z.gtb_spec remaining chunkSize); lia).
      rewrite Hck in Hloop.
      replace (chunkSize * k + chunkSize) with (chunkSize * (k + 1)) in Hloop by lia.
      replace (remaining - chunkSize) with (exponent - chunkSize * (k + 1)) in Hloop
        by (unfold remaining; lia).
      apply (IH (k + 1) v); (lia || assumption || unfold remaining in *; lia).
Qed.

Lemma computeIterativePower_returns_all (fuel : nat)
  (base exponent chunkSize v : Z) :
  0 < chunkSize -> 2 <= exponent ->
  computeIterativePower fuel base exponent chunkSize = Some (Returns v) ->
  forall j, 0 < j -> chunkSize * (j - 1) < exponent ->
    Digits.toString_length (base ^ Z.min (chunkSize * j) exponent) <= 1000.
Proof.
  intros Hc He Hr. unfold computeIterativePower in Hr.
  destruct (Z.eqb_spec exponent 0); [lia|].
  destruct (Z.eqb_spec exponent 1); [lia|].
  apply (iterative_loop_returns_all base chunkSize exponent Hc fuel 0 v);
    [lia | lia |].
  rewrite Z.mul_0_r, Z.sub_0_r. exact Hr.
Qed.

(** [computeSmartPower] always terminates: the fuel handed to the chunked
    loop is never exhausted. *)
Lemma computeSmartPower_total
  (power_power : Z -> Z -> HypernumConfig -> Outcome Z)
  (base exponent : Z) (config : HypernumConfig) :
  exists r, computeSmartPower power_power base exponent config = Some r.
Proof.
  unfold computeSmartPower.
  destruct ((base >? 10) && (exponent >? 100)).
  { destruct (primary _); eexists; reflexivity. }
  destruct (primary _); try (eexists; reflexivity).
  destruct (Z.lt_ge_cases exponent 0) as [Hneg|Hpos].
  - rewrite computeIterativePower_negative by assumption.
    eexists; reflexivity.
  - destruct (computeIterativePower_spec (Z.to_nat exponent) base exponent 1000)
      as (r & -> & _); [lia | lia | lia |].
    eexists; reflexivity.
Qed.

End SmartPowerFacts.

(** ** The power claims *)

Module PowerClaims.

Import Strategy SmartPower StrategyFacts SmartPowerFacts.

(** C1, as stated, fails: with overflow checking disabled,
    [computeSmartPower(11, 101)] fails on the growth guard and
    [computeSmartPower(2, 4000)] fails on the 1000-character cap of the
    chunked loop, both because of the size of the result. *)
Lemma smart_power_unchecked_counterexample :
  checkOverflow unchecked_config = false
  /\ computeSmartPower (Power.power 64) 11 101 unchecked_config
     = Some (Throws ValidationError)
  /\ computeSmartPower (Power.power 64) 2 4000 unchecked_config
     = Some (Throws ValidationError).
Proof. vm_compute. repeat split. Qed.

(** C1, amended.  With overflow checking disabled, [computeSmartPower]
    still applies the limits of the dimensional layer, none of which reads
    the overflow flag: it fails with a ValidationError when [base > 10] and
    [exponent > 100]; otherwise, on the staged path, when the exponent
    exceeds [maxSteps]; and, on the memory-safe path with an exponent of at
    least 2, when an accumulated result [base ^ min(1000 * j, exponent)] is
    longer than 1000 characters.  For every base and every exponent [>= 0]
    outside these limits it returns exactly [base ^ exponent]; the heuristic
    estimate is never selected.  In particular [computeSmartPower(2, 1000)]
    returns the exact 302-digit integer [2 ^ 1000].  [power.power], on which
    the exact and staged paths end, is the model of the spec, whose guard is
    skipped when overflow checking is off. *)
Theorem smart_power_unchecked (maxBits base exponent : Z) (config : HypernumConfig) :
  checkOverflow config = false ->
  0 <= exponent ->
  (10 < base /\ 100 < exponent ->
   computeSmartPower (Power.power maxBits) base exponent config
   = Some (Throws ValidationError))
  /\ (~ (10 < base /\ 100 < exponent) ->
      (primary (resolveStrategy [base; exponent] config) = staged ->
       staged_maxSteps config < exponent ->
       computeSmartPower (Power.power maxBits) base exponent config
       = Some (Throws ValidationError))
      /\ (primary (resolveStrategy [base; exponent] config) = memory_safe ->
          2 <= exponent ->
          (exists j, 0 < j /\ 1000 * (j - 1) < exponent
             /\ 1000 < Digits.toString_length (base ^ Z.min (1000 * j) exponent)) ->
          computeSmartPower (Power.power maxBits) base exponent config
          = Some (Throws ValidationError))
      /\ (primary (resolveStrategy [base; exponent] config) = staged ->
          exponent <= staged_maxSteps config ->
          computeSmartPower (Power.power maxBits) base exponent config
          = Some (Returns (BigIntValue (base ^ exponent))))
      /\ (primary (resolveStrategy [base; exponent] config) = memory_safe ->
          (exponent <= 1
           \/ forall j, 0 < j -> 1000 * (j - 1) < exponent ->
                Digits.toString_length (base ^ Z.min (1000 * j) exponent) <= 1000) ->
          computeSmartPower (Power.power maxBits) base exponent config
          = Some (Returns (BigIntValue (base ^ exponent))))
      /\ (primary (resolveStrategy [base; exponent] config) = exact ->
          computeSmartPower (Power.power maxBits) base exponent config
          = Some (Returns (BigIntValue (base ^ exponent)))))
  /\ primary (resolveStrategy [base; exponent] config) <> heuristic
  /\ computeSmartPower (Power.power maxBits) 2 1000 config
     = Some (Returns (BigIntValue (2 ^ 1000)))
  /\ Digits.decimal_digits (2 ^ 1000) = 302.
Proof.
  intros Hoff Hexp.
  assert (Hpower : forall b e c, 0 <= e -> checkOverflow c = false ->
            Power.power maxBits b e c = Returns (b ^ e))
    by (intros; now apply PowerFacts.power_exact_unchecked).
  assert (Hsafe_ok : forall b e, 0 <= e ->
            (e <= 1
             \/ forall j, 0 < j -> 1000 * (j - 1) < e ->
                  Digits.toString_length (b ^ Z.min (1000 * j) e) <= 1000) ->
            computeIterativePower (Z.to_nat e) b e 1000 = Some (Returns (b ^ e))).
  { intros b e He Hok.
    destruct (computeIterativePower_spec (Z.to_nat e) b e 1000)
      as (r & Hr & [->|(-> & j & Hj1 & Hj2 & Hj3)]); [lia | lia | lia | exact Hr |].
    exfalso. destruct Hok as [Hsmall|Hall].
    - unfold computeIterativePower in Hr.
      destruct (Z.eqb_spec e 0); [discriminate|].
      destruct (Z.eqb_spec e 1); [discriminate | lia].
    - specialize (Hall j Hj1 Hj2). lia. }
  split; [|split; [|split; [|split]]].
  - (* the growth guard *)
    intros [Hb He]. unfold computeSmartPower.
    destruct (Z.gtb_spec base 10); [|lia].
    destruct (Z.gtb_spec exponent 100); [|lia]. cbn [andb].
    pose proof (resolveStrategy_not_heuristic [base; exponent] config) as Hh.
    destruct (primary (resolveStrategy [base; exponent] config));
      (reflexivity || congruence).
  - intros Hguard.
    assert (Hg : (base >? 10) && (exponent >? 100) = false)
      by (destruct (Z.gtb_spec base 10), (Z.gtb_spec exponent 100);
          simpl; (reflexivity || lia)).
    unfold computeSmartPower. rewrite Hg.
    split; [|split; [|split; [|split]]]; intros Hprim; rewrite Hprim.
    + (* staged, past the step budget *)
      intros Hbudget. unfold computeStagedPower.
      destruct (Z.gtb_spec exponent (staged_maxSteps config)); [reflexivity | lia].
    + (* memory-safe, an accumulated result too long *)
      intros He2 (j & Hj1 & Hj2 & Hj3).
      destruct (computeIterativePower_spec (Z.to_nat exponent) base exponent 1000)
        as (r & Hr & [->|(-> & _)]); [lia | lia | lia | |];
        [|rewrite Hr; reflexivity].
      exfalso.
      assert (H1000 : 0 < 1000) by lia.
      pose proof (computeIterativePower_returns_all (Z.to_nat exponent) base
                    exponent 1000 (base ^ exponent) H1000 He2 Hr j Hj1 Hj2).
      lia.
    + (* staged, within the step budget *)
      intros Hbudget. unfold computeStagedPower.
      destruct (Z.gtb_spec exponent (staged_maxSteps config)); [lia|].
      now rewrite Hpower.
    + (* memory-safe, every accumulated result short enough *)
      intros Hok. now rewrite Hsafe_ok.
    + (* exact *)
      now rewrite Hpower.
  - apply resolveStrategy_not_heuristic.
  - (* 2 ^ 1000 *)
    unfold computeSmartPower. cbn [andb Z.gtb Z.compare Pos.compare Pos.compare_cont].
    pose proof (resolveStrategy_not_heuristic [2; 1000] config) as Hh.
    destruct (primary (resolveStrategy [2; 1000] config)) eqn:Hprim.
    + now rewrite Hpower.
    + congruence.
    + apply resolveStrategy_staged in Hprim as (input & Hin & Hprom).
      destruct Hin as [<-|[<-|[]]]; vm_compute in Hprom; discriminate.
    + rewrite Hsafe_ok; [reflexivity | lia |]. right.
      intros j Hj1 Hj2. replace (Z.min (1000 * j) 1000) with 1000 by lia.
      vm_compute. discriminate.
  - vm_compute. reflexivity.
Qed.

Lemma smart_power_unchecked_witness :
  computeSmartPower (Power.power 64) 2 4000 unchecked_config
  = Some (Throws ValidationError)
  /\ computeSmartPower (Power.power 64) 3 5 unchecked_config
     = Some (Returns (BigIntValue (3 ^ 5))).
Proof.
  split.
  - refine (proj1 (proj2 (proj1 (proj2
              (smart_power_unchecked 64 2 4000 unchecked_config _ _)) _)) _ _ _).
    + reflexivity.
    + lia.
    + lia.
    + vm_compute. reflexivity.
    + lia.
    + exists 4. split; [lia|]. split; [lia|].
      vm_compute. reflexivity.
  - refine (proj1 (proj2 (proj2 (proj2 (proj1 (proj2
              (smart_power_unchecked 64 3 5 unchecked_config _ _)) _)))) _ _).
    + reflexivity.
    + lia.
    + lia.
    + vm_compute. reflexivity.
    + right. intros j Hj1 Hj2. replace (Z.min (1000 * j) 5) with 5 by lia.
      vm_compute. discriminate.
Defined.

(** C3.  The claim fails on the memory-safe path: for a negative exponent
    [computeIterativePower] skips its loop and returns the initial
    accumulator [1n], so [computeSmartPower] returns [1n] instead of
    failing with a ValidationError. *)
Theorem smart_power_negative_exponent
  (power_power : Z -> Z -> HypernumConfig -> Outcome Z)
  (base exponent : Z) (config : HypernumConfig) :
  exponent < 0 ->
  primary (resolveStrategy [base; exponent] config) = memory_safe ->
  computeSmartPower power_power base exponent config
  = Some (Returns (BigIntValue 1)).
Proof.
  intros Hneg Hprim. unfold computeSmartPower. rewrite Hprim.
  replace (exponent >? 100) with false by (destruct (Z.gtb_spec exponent 100); lia).
  rewrite andb_false_r, computeIterativePower_negative by assumption.
  reflexivity.
Qed.

Lemma smart_power_negative_exponent_witness :
  -1 < 0
  /\ computeSmartPower (Power.power 64) 2 (-1) unchecked_config
     = Some (Returns (BigIntValue 1)).
Proof.
  split; [lia|].
  apply smart_power_negative_exponent; [lia | vm_compute; reflexivity].
Defined.

(** C4, as stated, fails: a step-budget failure and a size-bound failure of
    the power computation are both reported as a ValidationError.  With
    [maxSteps = 1000], [computeSmartPower(2, 10^50)] takes the staged path
    and fails because the exponent exceeds the step budget;
    [computeIterativePower(10, 1001, 1000)] fails because [10^1000] has 1001
    digits. *)
Lemma power_limit_errors_counterexample :
  computeSmartPower (Power.power 64) 2 (10 ^ 50) unchecked_config
  = Some (Throws ValidationError)
  /\ primary (resolveStrategy [2; 10 ^ 50] unchecked_config) = staged
  /\ staged_maxSteps unchecked_config < 10 ^ 50
  /\ computeIterativePower 2 10 1001 1000 = Some (Throws ValidationError)
  /\ 1000 < Digits.decimal_digits (10 ^ 1000).
Proof. vm_compute. repeat split. Qed.

(** C4, amended.  Every failure that [computeSmartPower],
    [computeStagedPower] and [computeIterativePower] raise themselves for
    exceeding one of their limits is a ValidationError: the growth guard
    ([base > 10] and [exponent > 100]), the step budget of the staged path
    ([exponent > maxSteps]) and the 1000-character cap of the chunked loop.
    An error of any other class that [computeSmartPower] reports was raised
    by [power.power]. *)
Theorem power_limit_errors
  (power_power : Z -> Z -> HypernumConfig -> Outcome Z) :
  (forall base exponent config,
     10 < base -> 100 < exponent ->
     computeSmartPower power_power base exponent config
     = Some (Throws ValidationError))
  /\ (forall base exponent config,
        staged_maxSteps config < exponent ->
        computeStagedPower power_power base exponent config
        = Throws ValidationError)
  /\ (forall fuel base exponent chunkSize e,
        computeIterativePower fuel base exponent chunkSize = Some (Throws e) ->
        e = ValidationError)
  /\ (forall base exponent config e,
        computeSmartPower power_power base exponent config = Some (Throws e) ->
        e = ValidationError
        \/ exists b' e' c', power_power b' e' c' = Throws e).
Proof.
  split; [|split; [|split]].
  - intros base exponent config Hb He. unfold computeSmartPower.
    destruct (Z.gtb_spec base 10); [|lia].
    destruct (Z.gtb_spec exponent 100); [|lia]. simpl.
    pose proof (resolveStrategy_not_heuristic [base; exponent] config) as Hh.
    destruct (primary (resolveStrategy [base; exponent] config));
      (reflexivity || congruence).
  - intros base exponent config He. unfold computeStagedPower.
    destruct (Z.gtb_spec exponent (staged_maxSteps config)); [reflexivity | lia].
  - intros fuel base exponent chunkSize e.
    apply computeIterativePower_throws.
  - intros base exponent config e. unfold computeSmartPower.
    destruct ((base >? 10) && (exponent >? 100)).
    { destruct (primary _); intros [= <-] || discriminate; now left. }
    destruct (primary _).
    + destruct (power_power base exponent config) eqn:Hp; simpl; [discriminate|].
      intros [= <-]. right. eauto.
    + destruct (power_power base exponent config) eqn:Hp; simpl; [discriminate|].
      intros [= <-]. right. eauto.
    + unfold computeStagedPower.
      destruct (exponent >? staged_maxSteps config); simpl.
      { intros [= <-]. now left. }
      match goal with
      | |- context [power_power ?b ?x ?c] =>
          destruct (power_power b x c) eqn:Hp; simpl; [discriminate|]
      end.
      intros [= <-]. right. eauto.
    + destruct (computeIterativePower _ _ _ _) as [[v|e']|] eqn:Hit; simpl;
        try discriminate.
      intros [= <-]. left. eapply computeIterativePower_throws. exact Hit.
Qed.

Lemma power_limit_errors_witness :
  10 < 11 /\ 100 < 101
  /\ computeSmartPower (Power.power 64) 11 101 unchecked_config
     = Some (Throws ValidationError).
Proof.
  split; [lia|]. split; [lia|].
  apply (proj1 (power_limit_errors (Power.power 64))); lia.
Defined.

(** C10, as stated, fails: [computeIterativePower(-10, 999, 1000)] throws
    its ValidationError although no power [(-10)^m] with [m <= 999] has more
    than 1000 decimal digits; the test [result.toString().length > 1000]
    counts the minus sign of [(-10)^999], whose magnitude has exactly 1000
    digits. *)
Lemma iterative_power_sign_counterexample :
  computeIterativePower 999 (-10) 999 1000 = Some (Throws ValidationError)
  /\ Digits.decimal_digits ((-10) ^ 999) = 1000
  /\ forall m, 0 < m <= 999 -> Digits.decimal_digits ((-10) ^ m) <= 1000.
Proof.
  split; [vm_compute; reflexivity|]. split; [vm_compute; reflexivity|].
  intros m Hm. apply DigitsFacts.decimal_digits_le; [lia|].
  rewrite Z.abs_pow. change (Z.abs (-10)) with 10.
  apply Z.pow_lt_mono_r; lia.
Qed.

(** C10, amended.  For every base, every exponent [>= 0] and every
    [chunkSize > 0], [computeIterativePower] terminates and either returns
    exactly [base ^ exponent] or throws a ValidationError; the
    ValidationError is thrown only when the decimal string of an
    accumulated result [base ^ min(chunkSize * j, exponent)], a leading
    minus sign included, is longer than 1000 characters.  The function
    reads no configuration. *)
Theorem iterative_power_result (fuel : nat) (base exponent chunkSize : Z) :
  0 <= exponent -> 0 < chunkSize -> (Z.to_nat exponent <= fuel)%nat ->
  exists r,
    computeIterativePower fuel base exponent chunkSize = Some r
    /\ (r = Returns (base ^ exponent)
        \/ (r = Throws ValidationError
            /\ exists j, 0 < j /\ chunkSize * (j - 1) < exponent
               /\ 1000 < Digits.toString_length
                           (base ^ Z.min (chunkSize * j) exponent))).
Proof. apply computeIterativePower_spec. Qed.

Lemma iterative_power_result_witness :
  0 <= 10 /\ 0 < 3 /\ (Z.to_nat 10 <= 10)%nat
  /\ exists r,
       computeIterativePower 10 2 10 3 = Some r
       /\ (r = Returns (2 ^ 10)
           \/ (r = Throws ValidationError
               /\ exists j, 0 < j /\ 3 * (j - 1) < 10
                  /\ 1000 < Digits.toString_length (2 ^ Z.min (3 * j) 10))).
Proof.
  split; [lia|]. split; [lia|]. split; [lia|].
  apply (iterative_power_result 10 2 10 3); lia.
Defined.

End PowerClaims.

(** ** Conflict resolution *)

Module ConflictClaims.

Import Conflicts.

(** C6.  The claim fails on [resolveDimensionConflicts]: the array it
    returns holds the very objects it was given ([[...profiles]] copies the
    array, not the profiles), and the adjustment is written into them.  On a
    PRECISION_TENSION profile and a HEURISTIC_FIT profile of activation 0.8,
    the caller's HEURISTIC_FIT object has activation 0.4 after the call. *)
Theorem resolve_conflicts_mutates_argument :
  (forall (h : gmap nat DimensionProfile) (profiles : list nat),
     adjustedProfiles (snd (resolveDimensionConflicts h profiles)) = profiles)
  /\ (activation <$> conflict_heap !! 1%nat) = Some (8 # 10)
  /\ (activation <$> fst (resolveDimensionConflicts conflict_heap conflict_profiles) !! 1%nat)
     = Some ((8 # 10) * (5 # 10))%Q
  /\ ~ ((8 # 10) * (5 # 10) == 8 # 10)%Q.
Proof.
  split; [|split; [|split]].
  - intros h profiles. unfold resolveDimensionConflicts.
    destruct (length (checkDimensionConflicts h profiles) =? 0)%nat;
      [reflexivity|].
    destruct (findIndex h profiles PRECISION_TENSION),
             (findIndex h profiles HEURISTIC_FIT);
      cbn beta iota zeta;
      repeat match goal with
             | |- context [match findIndex ?a ?b ?c with _ => _ end] =>
                 destruct (findIndex a b c)
             end; reflexivity.
  - vm_compute. reflexivity.
  - vm_compute. reflexivity.
  - intros H. vm_compute in H. discriminate.
Qed.

End ConflictClaims.

(** * Further properties of the dimensional layer *)

(** ** The strategy table *)

Module StrategyTableFacts.

Import Strategy StrategyTable StrategyFacts DigitsFacts.

Lemma magnitude_abs (x : Z) : magnitude x = Z.abs x.
Proof. unfold magnitude. destruct (Z.ltb_spec x 0); lia. Qed.

Lemma decimal_digits_lt_pow (z n : Z) :
  Digits.decimal_digits z <= n -> Z.abs z < 10 ^ n.
Proof.
  intros H. destruct (Z.eq_dec z 0) as [->|Hz].
  - rewrite decimal_digits_0 in H. simpl. apply Z.pow_pos_nonneg; lia.
  - destruct (decimal_digits_spec z Hz) as (Hd & _ & Hhi).
    eapply Z.lt_le_trans; [exact Hhi|]. apply Z.pow_le_mono_r; lia.
Qed.

(** The length test [magnitude.toString().length > n] is a magnitude
    test. *)
Lemma magnitude_length_gtb (x n : Z) :
  1 <= n ->
  (Digits.toString_length (magnitude x) >? n) = (10 ^ n <=? Z.abs x).
Proof.
  intros Hn. rewrite magnitude_abs.
  rewrite toString_length_nonneg by apply Z.abs_nonneg.
  destruct (Z.gtb_spec (Digits.decimal_digits (Z.abs x)) n) as [Hgt|Hle];
    destruct (Z.leb_spec (10 ^ n) (Z.abs x)) as [Hbig|Hsmall];
    try reflexivity; exfalso.
  - pose proof (decimal_digits_le (Z.abs x) n Hn) as H.
    rewrite Z.abs_idemp in H. lia.
  - apply decimal_digits_lt_pow in Hle. rewrite Z.abs_idemp in Hle. lia.
Qed.

(** An input is promoted to an active GROWTH_RISK profile exactly when it
    has at least 51 digits. *)
Lemma promote_active (x : Z) :
  match promoteToDimension x with
  | Some p => is_active p
  | None => false
  end = huge_input x.
Proof.
  unfold promoteToDimension, isPromotableScalar, huge_input. cbv zeta.
  rewrite !magnitude_length_gtb by lia. rewrite magnitude_abs.
  assert (H50 : 1000 < 10 ^ 50) by reflexivity.
  destruct (Z.leb_spec (10 ^ 50) (Z.abs x)) as [Hhuge|Hsmall].
  - destruct (Z.gtb_spec (Z.abs x) 1000); [|lia]. reflexivity.
  - destruct (Z.gtb_spec (Z.abs x) 1000);
      destruct (10 ^ 10 <=? Z.abs x); reflexivity.
Qed.

Lemma includes_app (l1 l2 : list StrategyDimension) (d : StrategyDimension) :
  includes (l1 ++ l2) d = includes l1 d || includes l2 d.
Proof. apply existsb_app. Qed.

(** The active dimensions contributed by the inputs. *)
Lemma promoted_dimensions (inputs : list Z) (d : StrategyDimension) :
  includes
    (map dimension
       (List.filter is_active
          (flat_map (fun input =>
             match promoteToDimension input with
             | Some profile => if is_active profile then [profile] else []
             | None => []
             end) inputs))) d
  = existsb huge_input inputs && dimension_eqb d GROWTH_RISK.
Proof.
  induction inputs as [|x inputs IH]; [reflexivity|].
  cbn [flat_map existsb].
  rewrite List.filter_app, map_app, includes_app, IH.
  pose proof (promote_active x) as Hx.
  destruct (promoteToDimension x) as [p|] eqn:Hp.
  - apply promoteToDimension_dimension in Hp as [Hd _].
    destruct (is_active p) eqn:Ha; rewrite <- Hx; cbn [List.filter map].
    + rewrite Ha. cbn [map includes existsb]. rewrite Hd.
      destruct (dimension_eqb d GROWTH_RISK), (existsb huge_input inputs);
        reflexivity.
    + destruct (dimension_eqb d GROWTH_RISK), (existsb huge_input inputs);
        reflexivity.
  - rewrite <- Hx.
    destruct (dimension_eqb d GROWTH_RISK), (existsb huge_input inputs);
      reflexivity.
Qed.

Lemma precision_active (p : Z) :
  Qle_bool (3 # 10) (Qmin (inject_Z p / 50) 1) = (15 <=? p).
Proof.
  destruct (Z.leb_spec 15 p) as [Hge|Hlt].
  - apply Qle_bool_iff, Q.min_glb; [|discriminate].
    unfold Qle, Qdiv, Qmult, Qinv, inject_Z. simpl. lia.
  - destruct (Qle_bool _ _) eqn:E; [|reflexivity]. exfalso.
    apply Qle_bool_iff in E.
    assert (H : (3 # 10 <= inject_Z p / 50)%Q)
      by (eapply Qle_trans; [exact E | apply Q.le_min_l]).
    unfold Qle, Qdiv, Qmult, Qinv, inject_Z in H. simpl in H. lia.
Qed.

Lemma steps_active (m : Z) :
  Qle_bool (4 # 10) (Qmin (inject_Z m / 2000) 1) = (800 <=? m).
Proof.
  destruct (Z.leb_spec 800 m) as [Hge|Hlt].
  - apply Qle_bool_iff, Q.min_glb; [|discriminate].
    unfold Qle, Qdiv, Qmult, Qinv, inject_Z. simpl. lia.
  - destruct (Qle_bool _ _) eqn:E; [|reflexivity]. exfalso.
    apply Qle_bool_iff in E.
    assert (H : (4 # 10 <= inject_Z m / 2000)%Q)
      by (eapply Qle_trans; [exact E | apply Q.le_min_l]).
    unfold Qle, Qdiv, Qmult, Qinv, inject_Z in H. simpl in H. lia.
Qed.

(** The active dimensions contributed by the configuration. *)
Lemma tension_dimensions (config : HypernumConfig) (d : StrategyDimension) :
  includes
    (map dimension
       (List.filter is_active
          match field_above (precision config) 10 with
          | Some p =>
              [{| dimension := PRECISION_TENSION;
                  activation := Qmin (inject_Z p / 50) 1;
                  threshold := 3 # 10;
                  evidence :=
                    [("High precision required: " ++ Digits.toString p)%string] |}]
          | None => []
          end)) d
  = field_at_least (precision config) 15 && dimension_eqb d PRECISION_TENSION.
Proof.
  destruct (precision config) as [p|]; cbn [field_above field_at_least];
    [|reflexivity].
  destruct (Z.eqb_spec p 0), (Z.gtb_spec p 10); cbn [negb andb List.filter map];
    try (destruct (Z.leb_spec 15 p); [lia | reflexivity]).
  unfold is_active at 1. cbn [threshold activation].
  rewrite precision_active.
  destruct (15 <=? p); cbn; [|reflexivity].
  destruct (dimension_eqb d PRECISION_TENSION); reflexivity.
Qed.

Lemma depth_dimensions (config : HypernumConfig) (d : StrategyDimension) :
  includes
    (map dimension
       (List.filter is_active
          match field_above (maxSteps config) 500 with
          | Some m =>
              [{| dimension := RECURSION_DEPTH;
                  activation := Qmin (inject_Z m / 2000) 1;
                  threshold := 4 # 10;
                  evidence :=
                    [("High step limit: " ++ Digits.toString m)%string] |}]
          | None => []
          end)) d
  = field_at_least (maxSteps config) 800 && dimension_eqb d RECURSION_DEPTH.
Proof.
  destruct (maxSteps config) as [m|]; cbn [field_above field_at_least];
    [|reflexivity].
  destruct (Z.eqb_spec m 0), (Z.gtb_spec m 500); cbn [negb andb List.filter map];
    try (destruct (Z.leb_spec 800 m); [lia | reflexivity]).
  unfold is_active at 1. cbn [threshold activation].
  rewrite steps_active.
  destruct (800 <=? m); cbn; [|reflexivity].
  destruct (dimension_eqb d RECURSION_DEPTH); reflexivity.
Qed.

Lemma intent_dimensions (config : HypernumConfig) (d : StrategyDimension) :
  includes
    (map dimension
       (List.filter is_active
          (if debug config
           then [{| dimension := USER_INTENT;
                    activation := 1;
                    threshold := 5 # 10;
                    evidence :=
                      ["Debug mode indicates development/testing context"%string] |}]
           else []))) d
  = debug config && dimension_eqb d USER_INTENT.
Proof.
  destruct (debug config); [|reflexivity].
  destruct d; vm_compute; reflexivity.
Qed.

(** [resolveStrategy] follows the decision table. *)
Lemma resolveStrategy_decision (inputs : list Z) (config : HypernumConfig) :
  primary (resolveStrategy inputs config) = decision_table inputs config.
Proof.
  unfold resolveStrategy, detectDimensions, decision_table. cbv zeta.
  rewrite !List.filter_app, !map_app, !includes_app.
  rewrite !promoted_dimensions, !tension_dimensions, !depth_dimensions,
    !intent_dimensions.
  cbn [dimension_eqb].
  destruct (existsb huge_input inputs),
           (field_at_least (precision config) 15),
           (field_at_least (maxSteps config) 800),
           (debug config); reflexivity.
Qed.

(** [resolveStrategy] as a decision table: the staged strategy when some
    input has at least 51 digits; otherwise the exact strategy when the
    precision is at least 15; otherwise the memory-safe strategy when
    [maxSteps] is at least 800; otherwise the exact strategy.  The heuristic
    strategy is never selected, and two configurations that agree on
    [precision] and [maxSteps] select the same strategy: [debug] and
    [checkOverflow] play no part. *)
Theorem resolveStrategy_table (inputs : list Z) (config : HypernumConfig) :
  primary (resolveStrategy inputs config) = decision_table inputs config
  /\ primary (resolveStrategy inputs config) <> heuristic
  /\ (forall config',
        precision config' = precision config ->
        maxSteps config' = maxSteps config ->
        primary (resolveStrategy inputs config')
        = primary (resolveStrategy inputs config)).
Proof.
  split; [apply resolveStrategy_decision|]. split.
  - apply resolveStrategy_not_heuristic.
  - intros config' Hp Hm. rewrite !resolveStrategy_decision.
    unfold decision_table. now rewrite Hp, Hm.
Qed.

Lemma resolveStrategy_table_witness :
  primary (resolveStrategy [2; 1000]
             {| precision := Some 0; checkOverflow := true;
                maxSteps := Some 1000; debug := true |})
  = primary (resolveStrategy [2; 1000] unchecked_config).
Proof.
  apply (proj2 (proj2 (resolveStrategy_table [2; 1000] unchecked_config)));
    reflexivity.
Defined.

End StrategyTableFacts.

(** ** Profiles and results of the dimensional layer *)

Module DimensionalFacts.

Import Strategy StrategyTable StrategyFacts StrategyTableFacts.
Import Binomial BinomialFacts SmartPower SmartPowerFacts SmartBinomial.

(** How a bigint input is promoted: not at all up to a magnitude of 1000;
    above it to a GROWTH_RISK profile of threshold 0.5, whose activation is
    0.3 below [10^50] and 0.7 from [10^50] on. *)
Theorem promoteToDimension_classes (x : Z) :
  (Z.abs x <= 1000 -> promoteToDimension x = None)
  /\ (1000 < Z.abs x ->
      exists p,
        promoteToDimension x = Some p
        /\ dimension p = GROWTH_RISK
        /\ (threshold p == 5 # 10)%Q
        /\ (activation p == if 10 ^ 50 <=? Z.abs x then 7 # 10 else 3 # 10)%Q).
Proof.
  unfold promoteToDimension, isPromotableScalar. cbv zeta.
  rewrite !magnitude_length_gtb by lia. rewrite magnitude_abs.
  assert (H10 : 1000 < 10 ^ 10) by reflexivity.
  assert (H50 : 10 ^ 10 < 10 ^ 50) by reflexivity.
  split; intros Hx.
  - destruct (Z.gtb_spec (Z.abs x) 1000); [lia|].
    destruct (Z.leb_spec (10 ^ 10) (Z.abs x)); [lia|]. reflexivity.
  - destruct (Z.gtb_spec (Z.abs x) 1000); [|lia]. cbn [orb negb].
    eexists. split; [reflexivity|]. cbn [dimension threshold activation].
    split; [reflexivity|]. split; [reflexivity|].
    destruct (10 ^ 50 <=? Z.abs x); reflexivity.
Qed.

Lemma promoteToDimension_classes_witness :
  exists p,
    promoteToDimension (-2024) = Some p
    /\ dimension p = GROWTH_RISK
    /\ (threshold p == 5 # 10)%Q
    /\ (activation p == if 10 ^ 50 <=? Z.abs (-2024) then 7 # 10 else 3 # 10)%Q.
Proof.
  apply (proj2 (promoteToDimension_classes (-2024))). reflexivity.
Defined.

(** Every profile that [detectDimensions] returns has an activation between
    0 and 1 and a threshold strictly between 0 and 1. *)
Theorem detectDimensions_range (inputs : list Z) (config : HypernumConfig)
  (p : DimensionProfile) :
  In p (detectDimensions inputs config) ->
  (0 <= activation p /\ activation p <= 1)%Q
  /\ (0 < threshold p /\ threshold p < 1)%Q.
Proof.
  unfold detectDimensions. rewrite !in_app_iff.
  intros [H|[H|[H|H]]].
  - apply in_flat_map in H as (input & _ & Hp).
    destruct (promoteToDimension input) as [q|] eqn:Hq; [|contradiction].
    destruct (is_active q); [|contradiction].
    destruct Hp as [<-|[]].
    unfold promoteToDimension in Hq.
    destruct (isPromotableScalar input); [|discriminate].
    cbn [negb] in Hq. injection Hq as <-. cbn [activation threshold].
    destruct (magnitude input >? 1000);
      destruct (Digits.toString_length (magnitude input) >? 50);
      repeat split; vm_compute; congruence.
  - unfold field_above in H. destruct (precision config) as [v|]; [|contradiction].
    destruct (Z.eqb_spec v 0); destruct (Z.gtb_spec v 10);
      cbn [negb andb] in H; try contradiction.
    destruct H as [<-|[]]. cbn [activation threshold].
    repeat split; try (vm_compute; congruence).
    + apply Q.min_glb; [|discriminate].
      unfold Qle, Qdiv, Qmult, Qinv, inject_Z. simpl. lia.
    + apply Q.le_min_r.
  - unfold field_above in H. destruct (maxSteps config) as [v|]; [|contradiction].
    destruct (Z.eqb_spec v 0); destruct (Z.gtb_spec v 500);
      cbn [negb andb] in H; try contradiction.
    destruct H as [<-|[]]. cbn [activation threshold].
    repeat split; try (vm_compute; congruence).
    + apply Q.min_glb; [|discriminate].
      unfold Qle, Qdiv, Qmult, Qinv, inject_Z. simpl. lia.
    + apply Q.le_min_r.
  - destruct (debug config); [|contradiction].
    destruct H as [<-|[]]. repeat split; vm_compute; congruence.
Qed.

Lemma detectDimensions_range_witness :
  let p := {| dimension := RECURSION_DEPTH;
              activation := Qmin (inject_Z 1000 / 2000) 1;
              threshold := 4 # 10;
              evidence := ["High step limit: 1000"%string] |} in
  (0 <= activation p /\ activation p <= 1)%Q
  /\ (0 < threshold p /\ threshold p < 1)%Q.
Proof.
  intros p. apply (detectDimensions_range [2; 1000] unchecked_config p).
  vm_compute. left. reflexivity.
Defined.

(** [computeSmartPower] never returns the logarithmic estimate: a value it
    returns is always an exact bigint. *)
Theorem smart_power_returns_bigint
  (power_power : Z -> Z -> HypernumConfig -> Outcome Z)
  (base exponent : Z) (config : HypernumConfig) (v : SmartValue) :
  computeSmartPower power_power base exponent config = Some (Returns v) ->
  exists z, v = BigIntValue z.
Proof.
  unfold computeSmartPower.
  pose proof (resolveStrategy_not_heuristic [base; exponent] config) as Hh.
  destruct ((base >? 10) && (exponent >? 100)).
  { destruct (primary _); (discriminate || congruence). }
  destruct (primary _); try congruence.
  - destruct (power_power base exponent config); cbn; intros [= <-]; eauto.
  - destruct (computeStagedPower _ _ _ _); cbn; intros [= <-]; eauto.
  - destruct (computeIterativePower _ _ _ _) as [[z|e]|]; cbn;
      intros [= <-]; eauto.
Qed.

Lemma smart_power_returns_bigint_witness :
  exists z, BigIntValue (2 ^ 1000) = BigIntValue z.
Proof.
  apply (smart_power_returns_bigint (Power.power 64) 2 1000 unchecked_config).
  vm_compute. reflexivity.
Defined.

(** [computeIterativeBinomial] computes the binomial coefficient for every
    [k >= 0], the coefficient being [0] above [n]. *)
Lemma computeIterativeBinomial_choose (n k : Z) :
  0 <= n -> 0 <= k ->
  computeIterativeBinomial n k = choose (Z.to_nat n) (Z.to_nat k).
Proof.
  intros Hn Hk. destruct (Z.le_gt_cases k n) as [Hle|Hgt].
  - rewrite computeIterativeBinomial_acc by lia.
    rewrite <- (Z2Nat.id n) at 1 by assumption.
    rewrite iterative_acc_choose.
    destruct (Z.le_ge_cases k (n - k)).
    + now rewrite Z.min_l by assumption.
    + rewrite Z.min_r by assumption.
      rewrite (choose_sym (Z.to_nat n) (Z.to_nat k)) by lia.
      f_equal. lia.
  - rewrite choose_gt by lia. unfold computeIterativeBinomial.
    destruct (Z.gtb_spec k n); [reflexivity | lia].
Qed.

(** Whatever strategy is selected, [computeSmartBinomial(n, k)] with
    [0 <= k <= n] returns the exact binomial coefficient as a bigint,
    provided the library's [binomial] does on these arguments. *)
Theorem smart_binomial_exact (binomial : Z -> Z -> bool -> Outcome Z)
  (n k : Z) (config : HypernumConfig) :
  0 <= n -> 0 <= k <= n ->
  binomial n k false = Returns (choose (Z.to_nat n) (Z.to_nat k)) ->
  computeSmartBinomial binomial n k config
  = Returns (ExactBinomial (choose (Z.to_nat n) (Z.to_nat k))).
Proof.
  intros Hn Hk Hlib. unfold computeSmartBinomial.
  pose proof (resolveStrategy_not_heuristic [n; k] config) as Hh.
  destruct (primary _); try congruence.
  - now rewrite Hlib.
  - rewrite computeStagedBinomial_acc.
    replace (if k >? n - k then n - k else k) with (Z.min k (n - k))
      by (destruct (Z.gtb_spec k (n - k)); lia).
    rewrite <- computeIterativeBinomial_acc by assumption.
    now rewrite computeIterativeBinomial_choose by lia.
  - now rewrite computeIterativeBinomial_choose by lia.
Qed.

Lemma smart_binomial_exact_witness :
  computeSmartBinomial (fun n k _ => Returns (choose (Z.to_nat n) (Z.to_nat k)))
    10 3 unchecked_config
  = Returns (ExactBinomial (choose (Z.to_nat 10) (Z.to_nat 3))).
Proof.
  apply smart_binomial_exact; [lia | lia | reflexivity].
Defined.

(** Outside [0 .. n] neither binomial loop runs.  For a negative [k] both
    functions return 1.  For [k > n] the staged function returns 1, where
    the iterative one returns 0. *)
Theorem binomial_out_of_range (n k : Z) (config : HypernumConfig) :
  0 <= n ->
  (k < 0 ->
   computeStagedBinomial n k config = 1 /\ computeIterativeBinomial n k = 1)
  /\ (n < k ->
      computeStagedBinomial n k config = 1 /\ computeIterativeBinomial n k = 0).
Proof.
  intros Hn. split; intros Hk; split.
  - rewrite computeStagedBinomial_acc.
    destruct (Z.gtb_spec k (n - k)); [lia|].
    now replace (Z.to_nat k) with O by lia.
  - unfold computeIterativeBinomial.
    destruct (Z.gtb_spec k n); [lia|].
    destruct (Z.eqb_spec k 0); [lia|]. destruct (Z.eqb_spec k n); [lia|].
    cbn [orb]. destruct (Z.gtb_spec k (n - k)); [lia|].
    unfold for_le. now rewrite for_lt_none by lia.
  - rewrite computeStagedBinomial_acc.
    destruct (Z.gtb_spec k (n - k)); [|lia].
    now replace (Z.to_nat (n - k)) with O by lia.
  - unfold computeIterativeBinomial.
    destruct (Z.gtb_spec k n); [reflexivity | lia].
Qed.

Lemma binomial_out_of_range_witness :
  computeStagedBinomial 3 5 unchecked_config = 1
  /\ computeIterativeBinomial 3 5 = 0.
Proof.
  apply (proj2 (binomial_out_of_range 3 5 unchecked_config ltac:(lia))). lia.
Defined.

(** The values of [computeIterativeBinomial] obey Pascal's rule. *)
Theorem iterative_binomial_pascal (n k : Z) :
  0 <= k <= n ->
  computeIterativeBinomial (n + 1) (k + 1)
  = computeIterativeBinomial n k + computeIterativeBinomial n (k + 1).
Proof.
  intros Hk. rewrite !computeIterativeBinomial_choose by lia.
  replace (Z.to_nat (n + 1)) with (Datatypes.S (Z.to_nat n)) by lia.
  replace (Z.to_nat (k + 1)) with (Datatypes.S (Z.to_nat k)) by lia.
  reflexivity.
Qed.

Lemma iterative_binomial_pascal_witness :
  computeIterativeBinomial (9 + 1) (2 + 1)
  = computeIterativeBinomial 9 2 + computeIterativeBinomial 9 (2 + 1).
Proof. apply iterative_binomial_pascal. lia. Defined.

End DimensionalFacts.

(** ** More on the power computations *)

Module PowerFurther.

Import Strategy StrategyTable StrategyFacts StrategyTableFacts.
Import SmartPower SmartPowerFacts DigitsFacts.

(** A value that the chunked loop returns after at least one iteration has
    passed the length test. *)
Lemma iterative_loop_returns_capped (fuel : nat) (base chunkSize : Z) :
  forall result remaining v,
    iterative_loop fuel base chunkSize result remaining = Some (Returns v) ->
    (remaining <= 0 /\ v = result) \/ Digits.toString_length v <= 1000.
Proof.
  induction fuel as [|fuel IH]; intros result remaining v; cbn [iterative_loop];
    destruct (Z.gtb_spec remaining 0) as [Hpos|Hdone];
    try discriminate; try (intros [= <-]; left; split; [lia | reflexivity]).
  match goal with
  | |- context [Digits.toString_length ?r >? 1000] =>
      destruct (Z.gtb_spec (Digits.toString_length r) 1000) as [Hlong|Hshort]
  end; [discriminate|].
  intros Hloop. apply IH in Hloop as [[_ ->]|Hcap]; right; assumption.
Qed.

(** The chunked loop on a non-negative base: only the size of the final
    power matters. *)
Lemma computeIterativePower_nonneg (fuel : nat) (base exponent chunkSize : Z) :
  0 <= base -> 2 <= exponent -> 0 < chunkSize ->
  (Z.to_nat exponent <= fuel)%nat ->
  computeIterativePower fuel base exponent chunkSize
  = Some (if base ^ exponent <? 10 ^ 1000
          then Returns (base ^ exponent)
          else Throws ValidationError).
Proof.
  intros Hb He Hc Hfuel.
  assert (Hpow : forall m, 0 <= m -> 0 <= base ^ m)
    by (intros m Hm; apply Z.pow_nonneg; assumption).
  destruct (computeIterativePower_spec fuel base exponent chunkSize)
    as (r & Hr & [->|(-> & j & Hj1 & Hj2 & Hj3)]); [lia | lia | lia | |];
    rewrite Hr; f_equal.
  - (* returned: the final value passed the test *)
    unfold computeIterativePower in Hr.
    destruct (Z.eqb_spec exponent 0); [lia|].
    destruct (Z.eqb_spec exponent 1); [lia|].
    apply iterative_loop_returns_capped in Hr as [[Hneg _]|Hcap]; [lia|].
    rewrite toString_length_nonneg in Hcap by (apply Hpow; lia).
    apply StrategyTableFacts.decimal_digits_lt_pow in Hcap.
    rewrite Z.abs_eq in Hcap by (apply Hpow; lia).
    destruct (Z.ltb_spec (base ^ exponent) (10 ^ 1000)); [reflexivity | lia].
  - (* thrown: some accumulated power is too long, hence the final one *)
    set (m := Z.min (chunkSize * j) exponent) in *.
    assert (Hm : 0 < m <= exponent) by (unfold m; nia).
    rewrite toString_length_nonneg in Hj3 by (apply Hpow; lia).
    assert (Hbig : 10 ^ 1000 <= base ^ m).
    { destruct (Z.le_gt_cases (10 ^ 1000) (base ^ m)) as [|Hlt]; [assumption|].
      pose proof (decimal_digits_le (base ^ m) 1000 ltac:(lia)) as Hle.
      rewrite Z.abs_eq in Hle by (apply Hpow; lia). specialize (Hle Hlt). lia. }
    assert (Hbase : 1 <= base).
    { destruct (Z.eq_dec base 0) as [->|]; [|lia].
      rewrite Z.pow_0_l in Hbig by lia.
      pose proof (Z.pow_pos_nonneg 10 1000 ltac:(lia) ltac:(lia)). lia. }
    assert (base ^ m <= base ^ exponent) by (apply Z.pow_le_mono_r; lia).
    destruct (Z.ltb_spec (base ^ exponent) (10 ^ 1000)); [lia | reflexivity].
Qed.

(** For a non-negative base and an exponent of at least 2 the outcome of
    [computeIterativePower] does not depend on the chunk size: the exact
    power when it is below [10^1000], a ValidationError otherwise.  The
    exponents 0 and 1 are answered before the loop and its length test:
    [1] and the base itself, whatever the size of the base. *)
Theorem iterative_power_nonneg_base (fuel : nat) (base exponent chunkSize : Z) :
  (0 <= base -> 2 <= exponent -> 0 < chunkSize ->
   (Z.to_nat exponent <= fuel)%nat ->
   computeIterativePower fuel base exponent chunkSize
   = Some (if base ^ exponent <? 10 ^ 1000
           then Returns (base ^ exponent)
           else Throws ValidationError))
  /\ computeIterativePower fuel base 0 chunkSize = Some (Returns 1)
  /\ computeIterativePower fuel base 1 chunkSize = Some (Returns base).
Proof.
  split; [apply computeIterativePower_nonneg|]. split; reflexivity.
Qed.

Lemma iterative_power_nonneg_base_witness :
  computeIterativePower 10 2 10 3
  = Some (if 2 ^ 10 <? 10 ^ 1000 then Returns (2 ^ 10) else Throws ValidationError).
Proof.
  apply (proj1 (iterative_power_nonneg_base 10 2 10 3)); lia.
Defined.

(** On the memory-safe path, a base between 0 and 10 and an exponent of at
    least 2 give the exact power as a bigint when it is below [10^1000],
    and a ValidationError otherwise. *)
Theorem smart_power_memory_safe
  (power_power : Z -> Z -> HypernumConfig -> Outcome Z)
  (base exponent : Z) (config : HypernumConfig) :
  0 <= base <= 10 -> 2 <= exponent ->
  primary (resolveStrategy [base; exponent] config) = memory_safe ->
  computeSmartPower power_power base exponent config
  = Some (if base ^ exponent <? 10 ^ 1000
          then Returns (BigIntValue (base ^ exponent))
          else Throws ValidationError).
Proof.
  intros Hb He Hprim. unfold computeSmartPower. rewrite Hprim.
  destruct (Z.gtb_spec base 10); [lia|]. cbn [andb].
  rewrite computeIterativePower_nonneg by lia.
  destruct (base ^ exponent <? 10 ^ 1000); reflexivity.
Qed.

Lemma smart_power_memory_safe_witness :
  computeSmartPower (Power.power 64) 2 1000 unchecked_config
  = Some (if 2 ^ 1000 <? 10 ^ 1000
          then Returns (BigIntValue (2 ^ 1000))
          else Throws ValidationError).
Proof.
  apply smart_power_memory_safe; [lia | lia | vm_compute; reflexivity].
Defined.

(** An exponent of at least 51 digits that exceeds [maxSteps] is always
    rejected by [computeSmartPower] with a ValidationError, whatever the
    base and the rest of the configuration. *)
Theorem smart_power_huge_exponent
  (power_power : Z -> Z -> HypernumConfig -> Outcome Z)
  (base exponent : Z) (config : HypernumConfig) :
  10 ^ 50 <= exponent -> staged_maxSteps config < exponent ->
  computeSmartPower power_power base exponent config
  = Some (Throws ValidationError).
Proof.
  intros Hhuge Hbudget. unfold computeSmartPower.
  rewrite resolveStrategy_decision. unfold decision_table.
  replace (existsb huge_input [base; exponent]) with true.
  2:{ cbn [existsb]. unfold huge_input at 2.
      assert (0 < 10 ^ 50) by reflexivity.
      destruct (Z.leb_spec (10 ^ 50) (Z.abs exponent)); [|lia].
      now rewrite orb_true_r. }
  destruct ((base >? 10) && (exponent >? 100)); [reflexivity|].
  unfold computeStagedPower.
  destruct (Z.gtb_spec exponent (staged_maxSteps config)); [reflexivity | lia].
Qed.

Lemma smart_power_huge_exponent_witness :
  computeSmartPower (Power.power 64) 2 (10 ^ 50) unchecked_config
  = Some (Throws ValidationError).
Proof.
  apply smart_power_huge_exponent; [reflexivity | reflexivity].
Defined.

End PowerFurther.

(** ** The operation context *)

Module ContextFacts.

Import Context.

Lemma max_step_spec (m x : Z) : max_step m x = Z.max m (Z.abs x).
Proof.
  unfold max_step. destruct (Z.ltb_spec x 0);
    match goal with |- context [?a >? ?b] => destruct (Z.gtb_spec a b) end; lia.
Qed.

Lemma fold_max_step_ge (inputs : list Z) :
  forall m, m <= fold_left max_step inputs m.
Proof.
  induction inputs as [|x inputs IH]; intros m; cbn [fold_left]; [lia|].
  specialize (IH (max_step m x)). rewrite max_step_spec in *. lia.
Qed.

Lemma fold_max_step_bound (inputs : list Z) :
  forall m x, In x inputs -> Z.abs x <= fold_left max_step inputs m.
Proof.
  induction inputs as [|y inputs IH]; intros m x Hin; [contradiction|].
  cbn [fold_left]. destruct Hin as [->|Hin].
  - pose proof (fold_max_step_ge inputs (max_step m x)) as H.
    rewrite max_step_spec in *. lia.
  - now apply IH.
Qed.

Lemma fold_max_step_attained (inputs : list Z) :
  forall m,
    fold_left max_step inputs m = m
    \/ exists x, In x inputs /\ Z.abs x = fold_left max_step inputs m.
Proof.
  induction inputs as [|y inputs IH]; intros m; cbn [fold_left]; [now left|].
  destruct (IH (max_step m y)) as [Heq|(x & Hin & Hx)].
  - rewrite Heq, max_step_spec.
    destruct (Z.max_spec m (Z.abs y)) as [[_ ->]|[_ ->]].
    + right. exists y. split; [now left | reflexivity].
    + now left.
  - right. exists x. split; [now right | assumption].
Qed.

Lemma run_updates_snoc (config : HypernumConfig) (calls : list (list Z * Q))
  (call : list Z * Q) :
  run_updates config (calls ++ [call])
  = updateDGTContext (run_updates config calls) (fst call) tt (snd call).
Proof. unfold run_updates. now rewrite fold_left_app. Qed.

(** After any sequence of [updateDGTContext] calls on a fresh context, the
    operation count is the number of calls, the history is the inputs of
    all calls in order, the configuration is the one the context was
    created with, and [maxValueSeen] is the largest magnitude in the
    history: it bounds every input seen, and is either 0 or the magnitude
    of one of them. *)
Theorem run_updates_invariant (config : HypernumConfig)
  (calls : list (list Z * Q)) :
  let context := run_updates config calls in
  operationCount (metadata context) = Z.of_nat (length calls)
  /\ inputHistory context = concat (map fst calls)
  /\ Context.config context = config
  /\ (forall x, In x (inputHistory context) ->
                Z.abs x <= maxValueSeen (metadata context))
  /\ (maxValueSeen (metadata context) = 0
      \/ exists x, In x (inputHistory context)
                   /\ Z.abs x = maxValueSeen (metadata context)).
Proof.
  induction calls as [|call calls IH] using rev_ind.
  - cbn. repeat split; try reflexivity; [contradiction | now left].
  - cbv zeta in *. rewrite run_updates_snoc.
    destruct IH as (Hcount & Hhist & Hconf & Hbound & Hatt).
    set (context := run_updates config calls) in *.
    unfold updateDGTContext.
    cbn [metadata operationCount maxValueSeen inputHistory Context.config].
    set (maxInput := fold_left max_step (fst call) 0).
    split; [|split; [|split; [|split]]].
    + rewrite Hcount, length_app. cbn [length]. lia.
    + rewrite Hhist, map_app, concat_app. cbn. now rewrite app_nil_r.
    + assumption.
    + intros x Hin. apply in_app_iff in Hin as [Hin|Hin].
      * specialize (Hbound x Hin).
        destruct (Z.gtb_spec maxInput (maxValueSeen (metadata context))); lia.
      * pose proof (fold_max_step_bound (fst call) 0 x Hin) as Hx.
        fold maxInput in Hx.
        destruct (Z.gtb_spec maxInput (maxValueSeen (metadata context))); lia.
    + destruct (Z.gtb_spec maxInput (maxValueSeen (metadata context))) as [Hgt|Hle].
      * destruct (fold_max_step_attained (fst call) 0) as [Hz|(x & Hin & Hx)].
        -- fold maxInput in Hz. destruct Hatt as [H0|(x & Hin & Hx)].
           ++ lia.
           ++ pose proof (Z.abs_nonneg x). lia.
        -- right. exists x. split; [apply in_app_iff; now right | assumption].
      * destruct Hatt as [H0|(x & Hin & Hx)]; [now left|].
        right. exists x. split; [apply in_app_iff; now left | assumption].
Qed.

End ContextFacts.

(** ** Selecting profiles *)

Module SelectionFacts.

Import Conflicts Selection.

Section Dominant.

Variable h : gmap nat DimensionProfile.

Local Abbreviation act l := (activation (h !!! l)).

Lemma dominant_step_cases (dominant current : nat) :
  (act dominant < act current /\ dominant_step h dominant current = current)%Q
  \/ (act current <= act dominant /\ dominant_step h dominant current = dominant)%Q.
Proof.
  unfold dominant_step.
  destruct (Qle_bool (act current) (act dominant)) eqn:E; cbn [negb].
  - right. split; [now apply Qle_bool_iff | reflexivity].
  - left. split; [|reflexivity]. apply Qnot_le_lt. intros H.
    apply Qle_bool_iff in H. congruence.
Qed.

(** The accumulator of the reduction is the first maximum of what has been
    scanned. *)
Lemma fold_dominant_split (rest : list nat) :
  forall pre acc post,
    (forall x, In x pre -> act x < act acc)%Q ->
    (forall x, In x post -> act x <= act acc)%Q ->
    exists pre' post',
      pre ++ acc :: post ++ rest
      = pre' ++ fold_left (dominant_step h) rest acc :: post'
      /\ (forall x, In x pre' -> act x < act (fold_left (dominant_step h) rest acc))%Q
      /\ (forall x, In x post' -> act x <= act (fold_left (dominant_step h) rest acc))%Q.
Proof.
  induction rest as [|x rest IH]; intros pre acc post Hpre Hpost.
  - exists pre, post. rewrite app_nil_r. repeat split; assumption.
  - cbn [fold_left].
    destruct (dominant_step_cases acc x) as [[Hlt ->]|[Hle ->]].
    + destruct (IH (pre ++ acc :: post) x []) as (pre' & post' & Heq & H1 & H2).
      * intros y Hy. apply in_app_iff in Hy as [Hy|[<-|Hy]].
        -- eapply Qlt_trans; [apply Hpre, Hy | exact Hlt].
        -- exact Hlt.
        -- eapply Qle_lt_trans; [apply Hpost, Hy | exact Hlt].
      * intros y [].
      * exists pre', post'. split; [|split; assumption].
        rewrite <- Heq. rewrite <- !app_assoc. reflexivity.
    + destruct (IH pre acc (post ++ [x])) as (pre' & post' & Heq & H1 & H2).
      * assumption.
      * intros y Hy. apply in_app_iff in Hy as [Hy|[<-|[]]];
          [apply Hpost, Hy | exact Hle].
      * exists pre', post'. split; [|split; assumption].
        rewrite <- Heq. rewrite <- !app_assoc. reflexivity.
Qed.

Lemma fold_dominant_keep (rest : list nat) (acc : nat) :
  (forall x, In x rest -> act x <= act acc)%Q ->
  fold_left (dominant_step h) rest acc = acc.
Proof.
  induction rest as [|x rest IH]; intros Hle; [reflexivity|].
  cbn [fold_left].
  destruct (dominant_step_cases acc x) as [[Hlt _]|[_ ->]].
  - exfalso. apply (Qlt_not_le _ _ Hlt). apply Hle. now left.
  - apply IH. intros y Hy. apply Hle. now right.
Qed.

Lemma fold_dominant_In (rest : list nat) (acc : nat) :
  In (fold_left (dominant_step h) rest acc) (acc :: rest).
Proof.
  destruct (fold_dominant_split rest [] acc []) as (pre' & post' & Heq & _);
    try (intros x []).
  cbn [app] in Heq. rewrite Heq. apply in_elt.
Qed.

(** A first maximum of the array is what [getDominantDimension] returns. *)
Lemma dominant_unique (pre post : list nat) (d : nat) :
  (forall x, In x pre -> act x < act d)%Q ->
  (forall x, In x post -> act x <= act d)%Q ->
  getDominantDimension h (pre ++ d :: post) = Some d.
Proof.
  intros Hpre Hpost. destruct pre as [|p0 pre]; cbn [app getDominantDimension].
  - now rewrite fold_dominant_keep.
  - rewrite fold_left_app. cbn [fold_left].
    pose proof (fold_dominant_In pre p0) as Hin.
    destruct (dominant_step_cases (fold_left (dominant_step h) pre p0) d)
      as [[_ ->]|[Hle _]].
    + now rewrite fold_dominant_keep.
    + exfalso. apply (Qlt_not_le _ _ (Hpre _ Hin)). exact Hle.
Qed.

(** What [getDominantDimension] returns is a first maximum of the array. *)
Lemma dominant_first_max (profiles : list nat) (d : nat) :
  getDominantDimension h profiles = Some d ->
  exists pre post,
    profiles = pre ++ d :: post
    /\ (forall x, In x pre -> act x < act d)%Q
    /\ (forall x, In x post -> act x <= act d)%Q.
Proof.
  destruct profiles as [|first rest]; [discriminate|].
  cbn [getDominantDimension]. intros [= <-].
  destruct (fold_dominant_split rest [] first [])
    as (pre' & post' & Heq & H1 & H2); try (intros x []).
  exists pre', post'. cbn [app] in Heq. repeat split; assumption.
Qed.

(** [getDominantDimension] returns [null] exactly on the empty array, and
    otherwise the first profile of maximal activation: every profile before
    it has a strictly smaller activation, every profile after it an
    activation that is not greater. *)
Theorem getDominantDimension_first_max (profiles : list nat) :
  (getDominantDimension h profiles = None <-> profiles = [])
  /\ (forall d,
        getDominantDimension h profiles = Some d <->
        exists pre post,
          profiles = pre ++ d :: post
          /\ (forall x, In x pre -> act x < act d)%Q
          /\ (forall x, In x post -> act x <= act d)%Q).
Proof.
  split.
  - destruct profiles; cbn; split; congruence.
  - intros d. split; [apply dominant_first_max|].
    intros (pre & post & -> & H1 & H2). now apply dominant_unique.
Qed.

Lemma filter_none {A : Type} (f : A -> bool) (l : list A) :
  (forall x, In x l -> f x = false) -> List.filter f l = [].
Proof.
  induction l as [|x l IH]; intros H; [reflexivity|]. cbn [List.filter].
  rewrite (H x) by now left. apply IH. intros y Hy. apply H. now right.
Qed.

(** Filtering by activation and then taking the dominant profile gives the
    dominant profile of the whole array when it passes the filter, and
    [null] otherwise. *)
Theorem dominant_after_filter (profiles : list nat) (minActivation : Q) :
  getDominantDimension h (filterByActivation h profiles minActivation)
  = match getDominantDimension h profiles with
    | Some d => if Qle_bool minActivation (act d) then Some d else None
    | None => None
    end.
Proof.
  destruct (getDominantDimension h profiles) as [d|] eqn:Hd.
  - apply dominant_first_max in Hd as (pre & post & -> & Hpre & Hpost).
    unfold filterByActivation.
    destruct (Qle_bool minActivation (act d)) eqn:Hmin.
    + rewrite List.filter_app. cbn [List.filter]. rewrite Hmin.
      apply dominant_unique; intros x Hx; apply filter_In in Hx as [Hx _];
        auto.
    + rewrite filter_none; [reflexivity|].
      intros x Hx. destruct (Qle_bool minActivation (act x)) eqn:Hx'; [|reflexivity].
      exfalso. apply Qle_bool_iff in Hx'.
      assert (Hxd : (act x <= act d)%Q).
      { apply in_app_iff in Hx as [Hx|[<-|Hx]];
          [apply Qlt_le_weak, Hpre, Hx | apply Qle_refl | apply Hpost, Hx]. }
      assert (Hle : Qle_bool minActivation (act d) = true)
        by (apply Qle_bool_iff; eapply Qle_trans; eassumption).
      congruence.
  - destruct profiles; [reflexivity | discriminate].
Qed.

End Dominant.

End SelectionFacts.

(** ** More on conflict resolution *)

Module ConflictFacts.

Import Conflicts StrategyFacts.

Lemma findIndex_from_In (d : StrategyDimension) (dims : list StrategyDimension) :
  forall i0 i, findIndex_from i0 d dims = Some i -> In d dims.
Proof.
  induction dims as [|d' dims IH]; intros i0 i; cbn [findIndex_from In];
    [discriminate|].
  destruct (dimension_eqb d' d) eqn:E.
  - intros _. left. now apply dimension_eqb_eq.
  - intros H. right. eapply IH, H.
Qed.

Lemma findIndex_pair_None (h : gmap nat DimensionProfile) (profiles : list nat)
  (d1 d2 : StrategyDimension) :
  ~ (In d1 (dimensions h profiles) /\ In d2 (dimensions h profiles)) ->
  findIndex h profiles d1 = None \/ findIndex h profiles d2 = None.
Proof.
  intros Hnot. unfold findIndex.
  destruct (findIndex_from 0 d1 _) eqn:E1; [|now left].
  destruct (findIndex_from 0 d2 _) eqn:E2; [|now right].
  exfalso. apply Hnot. split; eapply findIndex_from_In; eassumption.
Qed.

(** A found index designates an object of the array with the dimension
    that was looked for. *)
Lemma findIndex_from_Some (h : gmap nat DimensionProfile) (d : StrategyDimension)
  (profiles : list nat) :
  forall i0 i,
    findIndex_from i0 d (dimensions h profiles) = Some i ->
    (i0 <= i)%nat
    /\ exists l, profiles !! (i - i0)%nat = Some l /\ dimension (h !!! l) = d.
Proof.
  induction profiles as [|l0 profiles IH]; intros i0 i; cbn [dimensions map findIndex_from];
    [discriminate|].
  destruct (dimension_eqb (dimension (h !!! l0)) d) eqn:E.
  - intros [= <-]. split; [lia|]. exists l0. rewrite Nat.sub_diag.
    split; [reflexivity | now apply dimension_eqb_eq].
  - intros H. apply IH in H as (Hle & l & Hl & Hd). split; [lia|].
    exists l. split; [|assumption].
    replace (i - i0)%nat with (Datatypes.S (i - Datatypes.S i0)) by lia.
    exact Hl.
Qed.

Lemma findIndex_Some (h : gmap nat DimensionProfile) (profiles : list nat)
  (d : StrategyDimension) (i : nat) :
  findIndex h profiles d = Some i ->
  exists l, profiles !! i = Some l /\ dimension (h !!! l) = d.
Proof.
  intros H. apply findIndex_from_Some in H as (_ & l & Hl & Hd).
  rewrite Nat.sub_0_r in Hl. eauto.
Qed.

Lemma lookup_In (profiles : list nat) (i l : nat) :
  profiles !! i = Some l -> In l profiles.
Proof. intros H. apply list_elem_of_In. eapply list_elem_of_lookup_2, H. Qed.

(** The store after an activation assignment. *)
Lemma assign_lookup (f : Q -> Q) (array : list nat) (i : nat)
  (h : gmap nat DimensionProfile) (l : nat) :
  assign_activation f array i h !! l
  = if decide (array !! i = Some l)
    then update_activation f <$> h !! l
    else h !! l.
Proof.
  unfold assign_activation. destruct (array !! i) as [l'|] eqn:E.
  - rewrite lookup_alter. destruct (decide (l' = l)) as [->|Hne].
    + now rewrite decide_True by reflexivity.
    + rewrite decide_False by congruence. reflexivity.
  - rewrite decide_False by discriminate. reflexivity.
Qed.

Lemma assign_dimension (f : Q -> Q) (array : list nat) (i : nat)
  (h : gmap nat DimensionProfile) (l : nat) :
  dimension (assign_activation f array i h !!! l) = dimension (h !!! l).
Proof.
  rewrite !lookup_total_alt, assign_lookup.
  destruct (decide _); destruct (h !! l); reflexivity.
Qed.

Lemma assign_dimensions (f : Q -> Q) (array : list nat) (i : nat)
  (h : gmap nat DimensionProfile) (profiles : list nat) :
  dimensions (assign_activation f array i h) profiles = dimensions h profiles.
Proof.
  unfold dimensions. apply map_ext. intros l. apply assign_dimension.
Qed.

(** What one activation assignment at a found index leaves alone. *)
Lemma assign_frame (f : Q -> Q) (h : gmap nat DimensionProfile)
  (profiles : list nat) (d : StrategyDimension) (i l : nat) :
  findIndex h profiles d = Some i ->
  (dimension <$> assign_activation f profiles i h !! l) = (dimension <$> h !! l)
  /\ (threshold <$> assign_activation f profiles i h !! l) = (threshold <$> h !! l)
  /\ (evidence <$> assign_activation f profiles i h !! l) = (evidence <$> h !! l)
  /\ (~ In l profiles -> assign_activation f profiles i h !! l = h !! l)
  /\ (forall p, h !! l = Some p -> dimension p <> d ->
                assign_activation f profiles i h !! l = Some p).
Proof.
  intros Hfind. apply findIndex_Some in Hfind as (l' & Hl' & Hd).
  rewrite assign_lookup. destruct (decide (profiles !! i = Some l)) as [Heq|Hne].
  - assert (l' = l) as -> by congruence.
    repeat split; try (destruct (h !! l); reflexivity).
    + intros Hnot. exfalso. apply Hnot. eapply lookup_In, Hl'.
    + intros p Hp Hdim. exfalso. apply Hdim.
      now rewrite (lookup_total_correct _ _ _ Hp) in Hd.
  - repeat split; auto.
Qed.

(** The store that [resolveDimensionConflicts] leaves behind: the input
    store after at most two activation assignments, the first on the first
    HEURISTIC_FIT profile, the second on the first MEMORY_PRESSURE
    profile. *)
Lemma resolve_heap_shape (h : gmap nat DimensionProfile) (profiles : list nat) :
  exists h1,
    (h1 = h
     \/ exists i1, findIndex h profiles HEURISTIC_FIT = Some i1
                   /\ h1 = assign_activation (fun a => a * (5 # 10))%Q profiles i1 h)
    /\ (fst (resolveDimensionConflicts h profiles) = h1
        \/ exists i2, findIndex h1 profiles MEMORY_PRESSURE = Some i2
                      /\ fst (resolveDimensionConflicts h profiles)
                         = assign_activation (fun a => Qmin (a * (12 # 10)) 1)%Q
                             profiles i2 h1).
Proof.
  unfold resolveDimensionConflicts.
  destruct (length (checkDimensionConflicts h profiles) =? 0)%nat.
  { exists h. split; left; reflexivity. }
  destruct (findIndex h profiles PRECISION_TENSION) as [ip|];
    destruct (findIndex h profiles HEURISTIC_FIT) as [i1|] eqn:H1;
    cbn beta iota zeta;
    match goal with
    | |- context [findIndex ?h1 profiles MEMORY_PRESSURE] =>
        exists h1; split; [first [left; reflexivity | right; eauto]|];
        destruct (findIndex h1 profiles MEMORY_PRESSURE) as [i2|] eqn:H2;
        [destruct (findIndex h1 profiles RECURSION_DEPTH)|];
        cbn [fst]; first [left; reflexivity | right; eauto]
    end.
Qed.

(** Frame of [resolveDimensionConflicts]: no object gains or loses its
    place in the store, no dimension, threshold or evidence changes, an
    object that is not in the array is untouched, and so is every profile
    that is neither a HEURISTIC_FIT nor a MEMORY_PRESSURE profile. *)
Theorem resolve_conflicts_frame (h : gmap nat DimensionProfile)
  (profiles : list nat) (l : nat) :
  (dimension <$> fst (resolveDimensionConflicts h profiles) !! l)
  = (dimension <$> h !! l)
  /\ (threshold <$> fst (resolveDimensionConflicts h profiles) !! l)
     = (threshold <$> h !! l)
  /\ (evidence <$> fst (resolveDimensionConflicts h profiles) !! l)
     = (evidence <$> h !! l)
  /\ (~ In l profiles ->
      fst (resolveDimensionConflicts h profiles) !! l = h !! l)
  /\ (forall p, h !! l = Some p ->
                dimension p <> HEURISTIC_FIT -> dimension p <> MEMORY_PRESSURE ->
                fst (resolveDimensionConflicts h profiles) !! l = Some p).
Proof.
  destruct (resolve_heap_shape h profiles) as (h1 & Hh1 & Hh').
  assert (Hstep1 :
    (dimension <$> h1 !! l) = (dimension <$> h !! l)
    /\ (threshold <$> h1 !! l) = (threshold <$> h !! l)
    /\ (evidence <$> h1 !! l) = (evidence <$> h !! l)
    /\ (~ In l profiles -> h1 !! l = h !! l)
    /\ (forall p, h !! l = Some p -> dimension p <> HEURISTIC_FIT ->
                  h1 !! l = Some p)).
  { destruct Hh1 as [->|(i1 & Hi1 & ->)]; [repeat split; auto|].
    now apply assign_frame. }
  destruct Hstep1 as (Hd1 & Ht1 & He1 & Hn1 & Hp1).
  destruct Hh' as [->|(i2 & Hi2 & ->)].
  - repeat split; auto.
  - destruct (assign_frame (fun a => Qmin (a * (12 # 10)) 1)%Q h1 profiles
                MEMORY_PRESSURE i2 l Hi2) as (Hd2 & Ht2 & He2 & Hn2 & Hp2).
    repeat split; try congruence.
    + intros Hnot. rewrite Hn2, Hn1 by assumption. reflexivity.
    + intros p Hp Hh Hm. apply Hp2; [|assumption]. now apply Hp1.
Qed.

Lemma resolve_conflicts_frame_witness :
  fst (resolveDimensionConflicts conflict_heap conflict_profiles) !! 0%nat
  = Some precision_profile.
Proof.
  apply (resolve_conflicts_frame conflict_heap conflict_profiles 0%nat);
    [reflexivity | discriminate | discriminate].
Defined.

Lemma assign_range (f : Q -> Q) (array : list nat) (i : nat)
  (h : gmap nat DimensionProfile) :
  (forall a, 0 <= a /\ a <= 1 -> 0 <= f a /\ f a <= 1)%Q ->
  (forall l p, h !! l = Some p -> 0 <= activation p /\ activation p <= 1)%Q ->
  forall l p, assign_activation f array i h !! l = Some p ->
              (0 <= activation p /\ activation p <= 1)%Q.
Proof.
  intros Hf Hh l p. rewrite assign_lookup. destruct (decide _); [|apply Hh].
  destruct (h !! l) as [q|] eqn:Hq; [|discriminate].
  cbn. intros [= <-]. cbn [activation]. apply Hf. eapply Hh, Hq.
Qed.

Lemma halve_range (a : Q) :
  (0 <= a /\ a <= 1 -> 0 <= a * (5 # 10) /\ a * (5 # 10) <= 1)%Q.
Proof.
  intros [H0 H1]. split.
  - apply Qmult_le_0_compat; [assumption | discriminate].
  - apply Qle_trans with (1 * (5 # 10))%Q; [|discriminate].
    apply Qmult_le_compat_r; [assumption | discriminate].
Qed.

Lemma boost_range (a : Q) :
  (0 <= a /\ a <= 1 ->
   0 <= Qmin (a * (12 # 10)) 1 /\ Qmin (a * (12 # 10)) 1 <= 1)%Q.
Proof.
  intros [H0 H1]. split; [|apply Q.le_min_r].
  apply Q.min_glb; [|discriminate].
  apply Qmult_le_0_compat; [assumption | discriminate].
Qed.

(** [resolveDimensionConflicts] keeps activations within [0, 1]: when
    every profile of the store has an activation between 0 and 1 before the
    call, so has every profile after it. *)
Theorem resolve_conflicts_range (h : gmap nat DimensionProfile)
  (profiles : list nat) :
  (forall l p, h !! l = Some p -> 0 <= activation p /\ activation p <= 1)%Q ->
  forall l p,
    fst (resolveDimensionConflicts h profiles) !! l = Some p ->
    (0 <= activation p /\ activation p <= 1)%Q.
Proof.
  intros Hh. destruct (resolve_heap_shape h profiles) as (h1 & Hh1 & Hh').
  assert (H1 : forall l p, h1 !! l = Some p ->
                           (0 <= activation p /\ activation p <= 1)%Q).
  { destruct Hh1 as [->|(i1 & _ & ->)]; [assumption|].
    apply assign_range; [apply halve_range | assumption]. }
  destruct Hh' as [->|(i2 & _ & ->)]; [assumption|].
  apply assign_range; [apply boost_range | assumption].
Qed.

Lemma resolve_conflicts_range_witness :
  (0 <= activation (update_activation (fun a => a * (5 # 10))%Q heuristic_profile)
   /\ activation (update_activation (fun a => a * (5 # 10))%Q heuristic_profile) <= 1)%Q.
Proof.
  apply (resolve_conflicts_range conflict_heap conflict_profiles) with (l := 1%nat).
  - intros l p Hp. unfold conflict_heap in Hp.
    apply lookup_insert_Some in Hp as [[_ <-]|[_ Hp]];
      [vm_compute; split; discriminate|].
    apply lookup_insert_Some in Hp as [[_ <-]|[_ Hp]];
      [vm_compute; split; discriminate|].
    rewrite lookup_empty in Hp. discriminate.
  - vm_compute. reflexivity.
Defined.

(** [checkDimensionConflicts] reports nothing exactly when the array holds
    neither a PRECISION_TENSION together with a HEURISTIC_FIT profile nor a
    GROWTH_RISK together with a RECURSION_DEPTH profile; it reports at most
    two conflicts; and the order of the array does not matter. *)
Theorem checkDimensionConflicts_spec (h : gmap nat DimensionProfile)
  (profiles : list nat) :
  (checkDimensionConflicts h profiles = [] <->
   ~ (In PRECISION_TENSION (dimensions h profiles)
      /\ In HEURISTIC_FIT (dimensions h profiles))
   /\ ~ (In GROWTH_RISK (dimensions h profiles)
         /\ In RECURSION_DEPTH (dimensions h profiles)))
  /\ (length (checkDimensionConflicts h profiles) <= 2)%nat
  /\ (forall profiles', Permutation profiles profiles' ->
        checkDimensionConflicts h profiles' = checkDimensionConflicts h profiles).
Proof.
  split; [|split].
  - unfold checkDimensionConflicts. cbv zeta.
    rewrite <- !includes_In.
    destruct (includes _ PRECISION_TENSION), (includes _ HEURISTIC_FIT),
             (includes _ GROWTH_RISK), (includes _ RECURSION_DEPTH);
      cbn; intuition congruence.
  - unfold checkDimensionConflicts. cbv zeta.
    destruct (includes _ PRECISION_TENSION && includes _ HEURISTIC_FIT),
             (includes _ GROWTH_RISK && includes _ RECURSION_DEPTH); cbn; lia.
  - intros profiles' Hperm. unfold checkDimensionConflicts. cbv zeta.
    assert (Hinc : forall d, includes (dimensions h profiles') d
                             = includes (dimensions h profiles) d).
    { intros d. apply eq_true_iff_eq. rewrite !includes_In. unfold dimensions.
      split; apply Permutation_in, Permutation_map;
        [symmetry|]; assumption. }
    now rewrite !Hinc.
Qed.

(** When the array holds no PRECISION_TENSION/HEURISTIC_FIT pair and no
    MEMORY_PRESSURE/RECURSION_DEPTH pair, no profile object is changed and
    the references returned are those given; the text tells whether a
    GROWTH_RISK/RECURSION_DEPTH conflict was found. *)
Lemma resolve_noop_values (h : gmap nat DimensionProfile)
  (profiles : list nat) :
  ~ (In PRECISION_TENSION (dimensions h profiles)
     /\ In HEURISTIC_FIT (dimensions h profiles)) ->
  ~ (In MEMORY_PRESSURE (dimensions h profiles)
     /\ In RECURSION_DEPTH (dimensions h profiles)) ->
  resolveDimensionConflicts h profiles
  = (h, {| resolution :=
             if includes (dimensions h profiles) GROWTH_RISK
                && includes (dimensions h profiles) RECURSION_DEPTH
             then "Conflicts resolved by: "%string
             else "No conflicts detected"%string;
           adjustedProfiles := profiles |}).
Proof.
  intros Hph Hmr. unfold resolveDimensionConflicts, checkDimensionConflicts.
  cbv zeta.
  replace (includes (dimensions h profiles) PRECISION_TENSION
           && includes (dimensions h profiles) HEURISTIC_FIT) with false.
  2:{ symmetry. apply not_true_is_false. intros H.
      apply andb_true_iff in H as [H1 H2]. apply includes_In in H1, H2. auto. }
  cbn [app].
  destruct (includes (dimensions h profiles) GROWTH_RISK
            && includes (dimensions h profiles) RECURSION_DEPTH);
    [|reflexivity].
  cbn [length Nat.eqb].
  pose proof (findIndex_pair_None h profiles _ _ Hph) as Hfirst.
  pose proof (findIndex_pair_None h profiles _ _ Hmr) as Hsecond.
  assert (Hstep1 :
    match findIndex h profiles PRECISION_TENSION,
          findIndex h profiles HEURISTIC_FIT with
    | Some _, Some heuristicIndex =>
        (assign_activation (fun a => a * (5 # 10))%Q profiles heuristicIndex h,
         ("Conflicts resolved by: " ++ "reducing heuristic priority for precision; ")%string)
    | _, _ => (h, "Conflicts resolved by: "%string)
    end = (h, "Conflicts resolved by: "%string)).
  { destruct Hfirst as [-> | ->]; [reflexivity|].
    destruct (findIndex h profiles PRECISION_TENSION); reflexivity. }
  rewrite Hstep1. cbn beta iota.
  destruct Hsecond as [-> | ->]; [reflexivity|].
  destruct (findIndex h profiles MEMORY_PRESSURE); reflexivity.
Qed.

End ConflictFacts.

(** ** More on the simulator's arithmetic *)

Module SimulatorFacts.

Import Simulator SimulatorArithmetic.

(** With a non-zero divisor, the fallback [divide] undoes [multiply], the
    mock [divide] returns the thousandfold, and each quotient is off from
    the true ratio by less than one: the remainder is smaller in magnitude
    than the divisor. *)
Theorem divide_multiply (a b : Z) :
  b <> 0 ->
  fallback_divide (multiply a b) b = Returns a
  /\ MockHypernum_divide (multiply a b) b = Returns (1000 * a)
  /\ (exists q, fallback_divide a b = Returns q /\ Z.abs (a - q * b) < Z.abs b)
  /\ (exists q, MockHypernum_divide a b = Returns q
                /\ Z.abs (1000 * a - q * b) < Z.abs b).
Proof.
  intros Hb. unfold fallback_divide, MockHypernum_divide, bigint_div, multiply.
  destruct (Z.eqb_spec b 0); [contradiction|].
  split; [|split; [|split]].
  - f_equal. apply Z.quot_mul. assumption.
  - f_equal. replace (a * b * 1000) with (1000 * a * b) by ring.
    apply Z.quot_mul. assumption.
  - eexists. split; [reflexivity|].
    pose proof (Z.quot_rem' a b) as Hqr.
    pose proof (Z.rem_bound_abs a b Hb) as Hr.
    replace (a - a ÷ b * b) with (Z.rem a b) by lia. exact Hr.
  - eexists. split; [reflexivity|].
    pose proof (Z.quot_rem' (a * 1000) b) as Hqr.
    pose proof (Z.rem_bound_abs (a * 1000) b Hb) as Hr.
    replace (1000 * a - a * 1000 ÷ b * b) with (Z.rem (a * 1000) b) by lia.
    exact Hr.
Qed.

Lemma divide_multiply_witness :
  fallback_divide (multiply 7 (-3)) (-3) = Returns 7.
Proof. apply (proj1 (divide_multiply 7 (-3) ltac:(discriminate))). Defined.

End SimulatorFacts.

(** ** The library's division *)

Module ArithmeticClaims.

Import Arithmetic.

(** The Normalizer raises nothing but a ValidationError. *)
Lemma normalize_throws (input : NumericInput) (e : ErrorKind) :
  normalize input = Throws e -> e = ValidationError.
Proof.
  destruct input as [s|[q| |]|z|]; cbn [normalize]; try congruence.
  - destruct (NilZero.int_of_string s); congruence.
  - destruct (Qden (Qred q) =? 1)%positive; congruence.
Qed.

(** Whatever its operands, [divide] raises nothing but a ValidationError. *)
Lemma divide_throws (a b : NumericInput) (e : ErrorKind) :
  divide a b = Throws e -> e = ValidationError.
Proof.
  unfold divide.
  destruct (normalize a) as [x|ea] eqn:Ha;
    [|intros [= <-]; eapply normalize_throws, Ha].
  destruct (normalize b) as [y|eb] eqn:Hb;
    [|intros [= <-]; eapply normalize_throws, Hb].
  destruct (y =? 0); congruence.
Qed.

(** The divisors that normalize to zero include the texts ["0"], ["-0"] and
    ["000"], the native number zero and the bigint zero; a text with a
    decimal point does not normalize at all. *)
Example zero_divisors :
  map normalize
    [TextInput "0"; TextInput "-0"; TextInput "000";
     NumberInput (FiniteNumber 0); NumberInput (FiniteNumber (0 # 5));
     BigIntInput 0; TextInput "0.0"]
  = [Returns 0; Returns 0; Returns 0; Returns 0; Returns 0; Returns 0;
     Throws ValidationError].
Proof. vm_compute. reflexivity. Qed.

(** C7.  For every dividend [a], dividing [a] by a divisor that normalizes
    to zero fails with a ValidationError (DivisionByZero), not with a native
    runtime error; this holds whether or not the dividend itself
    normalizes. *)
Theorem divide_by_zero (a b : NumericInput) :
  normalize b = Returns 0 ->
  divide a b = Throws ValidationError
  /\ divide a b <> Throws RangeError.
Proof.
  intros Hb.
  assert (H : divide a b = Throws ValidationError).
  { unfold divide. rewrite Hb.
    destruct (normalize a) as [x|e] eqn:Ha; [reflexivity|].
    f_equal. eapply normalize_throws, Ha. }
  split; [exact H | rewrite H; discriminate].
Qed.

Lemma divide_by_zero_witness :
  normalize (TextInput "-0") = Returns 0
  /\ divide (BigIntInput 12345678901234567890) (TextInput "-0")
     = Throws ValidationError.
Proof.
  split; [vm_compute; reflexivity|].
  apply (divide_by_zero (BigIntInput 12345678901234567890) (TextInput "-0")).
  vm_compute. reflexivity.
Defined.

(** The [divide] stand-ins of the simulator example are not this division:
    on a zero divisor they raise the native RangeError of the runtime. *)
Example simulator_divide_by_zero :
  Simulator.MockHypernum_divide 7 0 = Throws RangeError
  /\ Simulator.fallback_divide 7 0 = Throws RangeError
  /\ divide (BigIntInput 7) (BigIntInput 0) = Throws ValidationError.
Proof. repeat split. Qed.

End ArithmeticClaims.

(** ** Conflict resolution with array identity *)

Module ConflictArrayFacts.

Import Conflicts ConflictArrays ConflictFacts StrategyFacts.

(** When the array holds no PRECISION_TENSION/HEURISTIC_FIT pair and no
    MEMORY_PRESSURE/RECURSION_DEPTH pair, [resolveDimensionConflicts]
    changes no profile object and no existing array, and the array it
    returns holds the references of the array it was given, in the same
    order.  Without a GROWTH_RISK/RECURSION_DEPTH pair it returns the very
    array it was given, with the text "No conflicts detected".  With such a
    pair the conflict is announced as resolved with nothing after the prefix
    of the message, and the array returned is a new one, distinct from the
    array given. *)
Theorem resolve_conflicts_noop (s : Store) (profiles : nat) (contents : list nat) :
  arrays s !! profiles = Some contents ->
  ~ (In PRECISION_TENSION (dimensions (objects s) contents)
     /\ In HEURISTIC_FIT (dimensions (objects s) contents)) ->
  ~ (In MEMORY_PRESSURE (dimensions (objects s) contents)
     /\ In RECURSION_DEPTH (dimensions (objects s) contents)) ->
  objects (fst (resolveDimensionConflicts_ref s profiles)) = objects s
  /\ (forall a x, arrays s !! a = Some x ->
                  arrays (fst (resolveDimensionConflicts_ref s profiles)) !! a = Some x)
  /\ arrays (fst (resolveDimensionConflicts_ref s profiles))
       !! adjustedProfiles_ref (snd (resolveDimensionConflicts_ref s profiles))
     = Some contents
  /\ (includes (dimensions (objects s) contents) GROWTH_RISK
      && includes (dimensions (objects s) contents) RECURSION_DEPTH = false ->
      resolution_text (snd (resolveDimensionConflicts_ref s profiles))
      = "No conflicts detected"%string
      /\ adjustedProfiles_ref (snd (resolveDimensionConflicts_ref s profiles))
         = profiles
      /\ arrays (fst (resolveDimensionConflicts_ref s profiles)) = arrays s)
  /\ (includes (dimensions (objects s) contents) GROWTH_RISK
      && includes (dimensions (objects s) contents) RECURSION_DEPTH = true ->
      resolution_text (snd (resolveDimensionConflicts_ref s profiles))
      = "Conflicts resolved by: "%string
      /\ adjustedProfiles_ref (snd (resolveDimensionConflicts_ref s profiles))
         <> profiles
      /\ arrays s !! adjustedProfiles_ref (snd (resolveDimensionConflicts_ref s profiles))
         = None).
Proof.
  intros Harr Hph Hmr.
  assert (Hfresh : arrays s !! fresh (dom (arrays s)) = None)
    by (apply not_elem_of_dom, is_fresh).
  assert (Hother : fresh (dom (arrays s)) <> profiles) by congruence.
  unfold resolveDimensionConflicts_ref. cbv zeta. rewrite Harr.
  change (default [] (Some contents)) with contents.
  rewrite (resolve_noop_values _ _ Hph Hmr).
  unfold checkDimensionConflicts. cbv zeta.
  replace (includes (dimensions (objects s) contents) PRECISION_TENSION
           && includes (dimensions (objects s) contents) HEURISTIC_FIT) with false.
  2:{ symmetry. apply not_true_is_false. intros H.
      apply andb_true_iff in H as [H1 H2]. apply includes_In in H1, H2. auto. }
  cbn [app].
  destruct (includes (dimensions (objects s) contents) GROWTH_RISK
            && includes (dimensions (objects s) contents) RECURSION_DEPTH);
    cbn [length Nat.eqb spread fst snd objects arrays resolution adjustedProfiles
         resolution_text adjustedProfiles_ref].
  - split; [reflexivity|]. split; [|split; [|split]].
    + intros a x Hax. rewrite lookup_insert_ne; [assumption | congruence].
    + apply lookup_insert_eq.
    + discriminate.
    + intros _. repeat split; assumption.
  - split; [reflexivity|]. split; [|split; [|split]].
    + intros a x Hax. assumption.
    + assumption.
    + intros _. repeat split.
    + discriminate.
Qed.

Lemma resolve_conflicts_noop_witness :
  resolution_text (snd (resolveDimensionConflicts_ref growth_recursion_store 0))
  = "Conflicts resolved by: "%string
  /\ adjustedProfiles_ref (snd (resolveDimensionConflicts_ref growth_recursion_store 0))
     <> 0%nat
  /\ arrays growth_recursion_store
       !! adjustedProfiles_ref (snd (resolveDimensionConflicts_ref growth_recursion_store 0))
     = None.
Proof.
  refine (proj2 (proj2 (proj2 (proj2
            (resolve_conflicts_noop growth_recursion_store 0%nat [0%nat; 1%nat] _ _ _)))) _).
  - vm_compute. reflexivity.
  - vm_compute. intros [[H|[H|[]]] _]; discriminate.
  - vm_compute. intros [[H|[H|[]]] _]; discriminate.
  - vm_compute. reflexivity.
Defined.

End ConflictArrayFacts.
